(** * IRIDM disaster-management assistant

    A shallow embedding of the location-resolution and incident-log core of
    [iridm_dm_app.py]: the station loader, the rounded distance, the
    nearest-station resolver, the ETA arithmetic of [main], the incident log
    with its CSV mirror, and the two sidebar buttons that append to it.

    Conventions of the embedding.
    - Coordinates and distances are exact rationals ([Q]): a coordinate cell
      is read as the number it holds, and a distance rounded to two decimals
      as the number of hundredths it shows.  Frames whose coordinate cells
      are missing or are not numbers are outside the model.
    - The ETA is computed on binary64 floats ([float]), operation by
      operation, because the rounding of each operation shows in the result.
    - NaN otherwise only occurs as the missing-value marker of a CSV cell of
      the log and is a constructor of [value].
    - A pandas [DataFrame] is the list of its rows, in row order.
    - Code that can raise returns a [result]; code that reads or writes the
      session, the files or the page runs in the monad [M] over [World].
    - Library functions whose code is not part of the program (the length
      geopy's [geodesic] computes, the sort behind [DataFrame.sort_values])
      are parameters. *)

From Stdlib Require Import List String Ascii Bool Arith ZArith QArith Qround.
From Stdlib Require Import Lia Lqa Permutation Sorted.
From Stdlib Require Import Floats.
Import ListNotations.

Set Implicit Arguments.

(** ** Exceptions *)

(** The exceptions the program can let escape.  The program defines no
    exception class and contains no [raise]: the first seven are raised by
    the libraries it calls.  The last four are the error kinds named by
    section 7 of the specification; they are listed so that statements can
    mention them, and no definition below constructs them. *)
Inductive PyError : Type :=
| IndexError            (* [.iloc[0]] on a frame without rows *)
| ValueError            (* a frame assigned to a single column; a latitude
                           geopy refuses; [int] of a NaN *)
| OverflowError         (* [int] of an infinity *)
| OSError               (* opening or writing a file fails *)
| ParserError           (* [pd.read_csv] cannot split a line into fields *)
| EmptyDataError        (* [pd.read_csv] finds no header line *)
| AttributeError        (* [st.session_state.log] when the key is absent *)
| SourceMalformedError
| EmptyInputError
| InvalidStatusError
| PersistenceWriteError.

Inductive result (A : Type) : Type :=
| Ok (a : A)
| Raise (e : PyError).
Arguments Ok {A} a.
Arguments Raise {A} e.

(** ** Stations and distances *)

Definition Coordinate : Type := (Q * Q)%type.

Record Station : Type := {
  name : string;
  latitude : Q;
  longitude : Q;
  phone : string
}.

Definition DEFAULT_FIRE_STATIONS : list Station :=
  [ {| name := "Kengeri Fire Station";
       latitude := 129133 # 10000;
       longitude := 774488 # 10000;
       phone := "+918022851049" |};
    {| name := "Ram Nagar Fire Station";
       latitude := 129225 # 10000;
       longitude := 775051 # 10000;
       phone := "+918022917567" |} ].

(** Campus points of interest. *)
Record CampusLocation : Type := {
  loc_name : string;
  loc_latitude : Q;
  loc_longitude : Q;
  evac_path : list Coordinate;
  extinguishers : list Coordinate
}.

Definition CAMPUS_LOCATIONS : list CampusLocation :=
  [ {| loc_name := "Admin Block";
       loc_latitude := 129079 # 10000;
       loc_longitude := 774332 # 10000;
       evac_path := [ (129080 # 10000, 774330 # 10000);
                      (129082 # 10000, 774324 # 10000);
                      (129076 # 10000, 774321 # 10000) ];
       extinguishers := [ (1290795 # 100000, 7743305 # 100000);
                          (1290805 # 100000, 7743285 # 100000) ] |};
    {| loc_name := "Hostel";
       loc_latitude := 129074 # 10000;
       loc_longitude := 774326 # 10000;
       evac_path := [ (129075 # 10000, 774325 # 10000);
                      (129078 # 10000, 774320 # 10000) ];
       extinguishers := [ (1290745 # 100000, 7743255 # 100000) ] |} ].

(** [location_names] of [main]. *)
Definition location_names : list string := map (@loc_name) CAMPUS_LOCATIONS.

Definition AVG_FIRE_TRUCK_SPEED_KMPH : Z := 40.

(** Python's [round(x)] on an exact value: nearest integer, ties to even. *)
Definition round_half_even (x : Q) : Z :=
  let f := Qfloor x in
  match ((x - inject_Z f) ?= (1 # 2))%Q with
  | Lt => f
  | Gt => (f + 1)%Z
  | Eq => if Z.even f then f else (f + 1)%Z
  end.

(** [round(x, 2)]. *)
Definition round2 (x : Q) : Q := round_half_even (x * (100 # 1))%Q # 100.

(** A row of the frame once the column [distance_km] has been added; it is
    also the [Series] that [.iloc[0]] returns. *)
Record StationRow : Type := {
  station : Station;
  distance_km : Q
}.

(** What geopy checks of a point before it measures anything: a latitude
    outside [-90, 90] is refused with a [ValueError]; a longitude is wrapped
    into [-180, 180) and never refused. *)
Definition valid_latitude (lat : Q) : bool :=
  Qle_bool (- (90 # 1)) lat && Qle_bool lat (90 # 1).

Definition valid_point (p : Coordinate) : bool := valid_latitude (fst p).

(** The rows of a frame all have a latitude geopy accepts. *)
Definition valid_stations (stations_df : list Station) : bool :=
  forallb (fun row => valid_latitude (latitude row)) stations_df.

Section Resolver.

(** The length in kilometres that [geopy.distance.geodesic] computes between
    two points it accepts. *)
Variable geodesic_km : Coordinate -> Coordinate -> Q.

(** [DataFrame.sort_values("distance_km")] with the default [kind]. *)
Variable sort_values : list StationRow -> list StationRow.

(** [geodesic(p1, p2).kilometers]: both points are checked, then measured. *)
Definition geodesic (p1 p2 : Coordinate) : result Q :=
  if valid_point p1 && valid_point p2 then Ok (geodesic_km p1 p2)
  else Raise ValueError.

Definition haversine_km (p1 p2 : Coordinate) : result Q :=
  match geodesic p1 p2 with
  | Ok kilometers => Ok (round2 kilometers)
  | Raise e => Raise e
  end.

(** The lambda of [nearest_fire_station]: the rounded distance from a point
    to the station of a row. *)
Definition distance_to (p : Coordinate) (row : Station) : result Q :=
  haversine_km p (latitude row, longitude row).

(** [df.apply(f, axis=1)] on a frame with rows: [f] is called on the rows in
    order, and the first exception it raises ends the call. *)
Fixpoint apply_rows (f : Station -> result Q) (df : list Station)
  : result (list StationRow) :=
  match df with
  | [] => Ok []
  | row :: rest =>
      match f row with
      | Raise e => Raise e
      | Ok d =>
          match apply_rows f rest with
          | Raise e => Raise e
          | Ok rows => Ok ({| station := row; distance_km := d |} :: rows)
          end
      end
  end.

(** [stations_df["distance_km"] = stations_df.apply(lambda row: ..., axis=1)].
    On a frame with rows, [apply] returns one value per row and the column
    is added.  On a frame without rows [apply] has no row to give the lambda
    and returns a copy of the (four-column) frame, which pandas refuses to
    assign to a single column with a [ValueError]. *)
Definition with_distance (lat lon : Q) (stations_df : list Station)
  : result (list StationRow) :=
  match stations_df with
  | [] => Raise ValueError
  | _ :: _ => apply_rows (distance_to (lat, lon)) stations_df
  end.

(** [df.iloc[0]]. *)
Definition iloc0 {A : Type} (df : list A) : result A :=
  match df with
  | [] => Raise IndexError
  | row :: _ => Ok row
  end.

Definition nearest_fire_station (lat lon : Q) (stations_df : list Station)
  : result StationRow :=
  match with_distance lat lon stations_df with
  | Raise e => Raise e
  | Ok stations_df =>
      let stations_df := sort_values stations_df in
      iloc0 stations_df
  end.

End Resolver.

(** The row the lambda adds the column to, for a point and a row that
    geopy accepts. *)
Definition row_with_distance (geodesic_km : Coordinate -> Coordinate -> Q)
    (lat lon : Q) (row : Station) : StationRow :=
  {| station := row;
     distance_km :=
       round2 (geodesic_km (lat, lon) (latitude row, longitude row)) |}.

(** What pandas documents of [sort_values]: the rows come back permuted into
    ascending order of the key.  Only [kind="mergesort"] and [kind="stable"]
    promise more, and the program asks for neither. *)
Definition by_distance (a b : StationRow) : Prop :=
  (distance_km a <= distance_km b)%Q.

Definition sort_contract (sort : list StationRow -> list StationRow) : Prop :=
  forall df, Permutation (sort df) df /\ StronglySorted by_distance (sort df).

(** Two sorts that meet the contract: insertion sorts that differ only in
    where a row goes among rows of equal distance. *)
Fixpoint insert_row (before : StationRow -> StationRow -> bool)
    (x : StationRow) (df : list StationRow) : list StationRow :=
  match df with
  | [] => [x]
  | y :: rest =>
      if before x y then x :: y :: rest else y :: insert_row before x rest
  end.

Definition insertion_sort (before : StationRow -> StationRow -> bool)
    (df : list StationRow) : list StationRow :=
  fold_right (insert_row before) [] df.

(** Ties keep the order of the input (a stable sort). *)
Definition sort_ties_in_order : list StationRow -> list StationRow :=
  insertion_sort (fun x y => Qle_bool (distance_km x) (distance_km y)).

(** Ties come out in the reverse of the input order. *)
Definition sort_ties_reversed : list StationRow -> list StationRow :=
  insertion_sort (fun x y => negb (Qle_bool (distance_km y) (distance_km x))).

(** What the specification compares the resolver with: the minimum of a
    non-empty list of distances, [min(...)] of Python. *)
Fixpoint min_of (d : Q) (ds : list Q) : Q :=
  match ds with
  | [] => d
  | d' :: rest => min_of (if Qle_bool d d' then d else d') rest
  end.

(** [min(distance_km(p, s) for s in S)] of the specification, the distance
    of a station being the geodesic length to its coordinates rounded to two
    decimals; [None] on an empty sequence. *)
Definition min_distance_km (geodesic_km : Coordinate -> Coordinate -> Q)
    (p : Coordinate) (S : list Station) : option Q :=
  match map (fun s => round2 (geodesic_km p (latitude s, longitude s))) S with
  | [] => None
  | d :: ds => Some (min_of d ds)
  end.

(** The tie-break of the specification: the first station of [S], in the
    order of [S], whose rounded distance is not above that of any other
    station of [S]. *)
Definition first_at_minimum (geodesic_km : Coordinate -> Coordinate -> Q)
    (p : Coordinate) (S : list Station) : option Station :=
  match min_distance_km geodesic_km p S with
  | None => None
  | Some m =>
      find (fun s =>
              Qle_bool (round2 (geodesic_km p (latitude s, longitude s))) m)
           S
  end.

(** Two stations at the same coordinates: whatever the distance function,
    they are equidistant from every point. *)
Definition twin_a : Station :=
  {| name := "Kengeri Fire Station";
     latitude := 129133 # 10000;
     longitude := 774488 # 10000;
     phone := "+918022851049" |}.

Definition twin_b : Station :=
  {| name := "Kengeri Fire Station (annexe)";
     latitude := 129133 # 10000;
     longitude := 774488 # 10000;
     phone := "+918022851050" |}.

(** Two more at the same coordinates, farther from the campus. *)
Definition far_a : Station :=
  {| name := "Ram Nagar Fire Station";
     latitude := 129225 # 10000;
     longitude := 775051 # 10000;
     phone := "+918022917567" |}.

Definition far_b : Station :=
  {| name := "Ram Nagar Fire Station (annexe)";
     latitude := 129225 # 10000;
     longitude := 775051 # 10000;
     phone := "+918022917568" |}.

(** A frame of four rows: the two far stations, then the two near ones. *)
Definition far_then_near : list Station := [far_a; far_b; twin_a; twin_b].

(** A stand-in for [geodesic] to run the resolver on: degrees of latitude
    plus degrees of longitude, at 111 km a degree. *)
Definition taxicab_km (p1 p2 : Coordinate) : Q :=
  let dlat := (fst p1 - fst p2)%Q in
  let dlon := (snd p1 - snd p2)%Q in
  ((111 # 1) *
   ((if Qle_bool 0 dlat then dlat else - dlat) +
    (if Qle_bool 0 dlon then dlon else - dlon)))%Q.

(** ** ETA *)

(** What a binary64 value stands for. *)
Inductive number : Type :=
| Finite (q : Q)
| Infinite (negative : bool)
| NotANumber.

(** The exact value of a float: [m * 2 ^ e] with its sign, in lowest
    terms. *)
Definition float_number (x : float) : number :=
  match Prim2SF x with
  | S754_zero _ => Finite (0 # 1)
  | S754_finite s m e =>
      let v := if s then Zneg m else Zpos m in
      Finite (Qred (if (0 <=? e)%Z then inject_Z (v * 2 ^ e)
                    else v # Pos.pow 2 (Z.to_pos (- e))))
  | S754_infinity s => Infinite s
  | S754_nan => NotANumber
  end.

(** Truncation toward zero. *)
Definition truncate (q : Q) : Z := Z.quot (Qnum q) (Zpos (Qden q)).

(** Python's [int(x)] on a float: truncation toward zero; an infinity and a
    NaN are refused. *)
Definition int (x : float) : result Z :=
  match float_number x with
  | Finite q => Ok (truncate q)
  | Infinite _ => Raise OverflowError
  | NotANumber => Raise ValueError
  end.

(** An integer as a float, as [/] converts the integer constant of the
    speed: the nearest binary64 value (the integer itself below 2^53).
    Beyond 63 bits the conversion of the model wraps; no distance or speed
    of the program comes near. *)
Definition float_of_Z (z : Z) : float :=
  match z with
  | Zneg p => (- of_uint63 (Uint63.of_Z (Zpos p)))%float
  | _ => of_uint63 (Uint63.of_Z z)
  end.

(** The float that stands for a distance shown with two decimals: the
    binary64 value nearest to the quotient, which is what [round(x, 2)]
    returns. *)
Definition as_float (x : Q) : float :=
  (float_of_Z (Qnum x) / float_of_Z (Zpos (Qden x)))%float.

(** The ETA expression of [main],
    [int((distance_km / AVG_FIRE_TRUCK_SPEED_KMPH) * 60)], with the speed as
    an argument.  The distance is a numpy float, so [/] does not raise on a
    zero divisor: it gives an infinity or a NaN, which [int] refuses. *)
Definition eta_minutes (distance_km speed_kmph : float) : result Z :=
  int ((distance_km / speed_kmph) * 60)%float.

Definition eta_min (distance_km : Q) : result Z :=
  eta_minutes (as_float distance_km) (float_of_Z AVG_FIRE_TRUCK_SPEED_KMPH).

(** Finite and not negative; finite and positive. *)
Definition finite_nonneg (x : float) : bool :=
  (0 <=? x)%float && (x <? infinity)%float.

Definition finite_pos (x : float) : bool :=
  (0 <? x)%float && (x <? infinity)%float.

(** A binary64 value, as Rocq specifies it, that is a zero, a positive
    number or the positive infinity; one that is a positive number. *)
Definition sf_nonneg (x : spec_float) : Prop :=
  match x with
  | S754_zero _ => True
  | S754_finite s _ _ => s = false
  | S754_infinity s => s = false
  | S754_nan => False
  end.

Definition sf_finite_pos (x : spec_float) : Prop :=
  match x with
  | S754_finite s _ _ => s = false
  | _ => False
  end.

(** The ETA at 40 km/h of every distance of [k] hundredths of a kilometre
    below [bound] is the exact floor of one and a half times the distance. *)
Definition exact_below (bound : Z) : bool :=
  forallb (fun k =>
             match eta_min (k # 100) with
             | Ok n => (n =? Qfloor ((k # 100) * (3 # 2)))%Z
             | Raise _ => false
             end)
          (map Z.of_nat (seq 0 (Z.to_nat bound))).

(** ** Timestamps *)

(** The fields of a naive [datetime], as [datetime.now()] returns it. *)
Record datetime : Type := {
  year : N;
  month : N;
  day : N;
  hour : N;
  minute : N;
  second : N;
  microsecond : N
}.

Definition valid_datetime (t : datetime) : Prop :=
  (1 <= year t <= 9999 /\ 1 <= month t <= 12 /\ 1 <= day t <= 31 /\
   hour t < 24 /\ minute t < 60 /\ second t < 60 /\
   microsecond t < 1000000)%N.

Definition digit (n : N) : ascii := ascii_of_N (48 + n mod 10).

(** ["%02d"] and ["%04d"] on numbers of at most two and four digits. *)
Definition pad2 (n : N) : string :=
  String (digit (n / 10)) (String (digit n) EmptyString).

Definition pad4 (n : N) : string :=
  (pad2 (n / 100) ++ pad2 (n mod 100))%string.

(** [t.isoformat(timespec="seconds")]: [YYYY-MM-DDTHH:MM:SS], the
    microseconds dropped. *)
Definition isoformat_seconds (t : datetime) : string :=
  (pad4 (year t) ++ "-" ++ pad2 (month t) ++ "-" ++ pad2 (day t) ++ "T" ++
   pad2 (hour t) ++ ":" ++ pad2 (minute t) ++ ":" ++ pad2 (second t))%string.

(** The reading of a clock down to the second, most significant field first. *)
Definition to_second (t : datetime) : list N :=
  [year t; month t; day t; hour t; minute t; second t].

Fixpoint lex_compare (a b : list N) : comparison :=
  match a, b with
  | [], [] => Eq
  | [], _ :: _ => Lt
  | _ :: _, [] => Gt
  | x :: a', y :: b' =>
      match N.compare x y with
      | Eq => lex_compare a' b'
      | c => c
      end
  end.

(** [t1] is not later than [t2], at second precision. *)
Definition not_later (t1 t2 : datetime) : Prop :=
  lex_compare (to_second t1) (to_second t2) <> Gt.

(** ** Log entries and their CSV mirror *)

(** What a cell of an entry can hold: text, or the NaN that [pd.read_csv]
    puts where it reads a missing value.  Columns that [pd.read_csv] would
    read as numbers or booleans are outside this model: the timestamp column
    never is one, and [main] only logs the two statuses below with a campus
    location name or ["GPS"]. *)
Inductive value : Type :=
| VStr (s : string)
| VNaN.

Record Entry : Type := {
  timestamp : value;
  status : value;
  location : value;
  notes : value
}.

(** A record of the persisted file, the text of its four fields (quoting
    undone). *)
Record CsvRecord : Type := {
  csv_timestamp : string;
  csv_status : string;
  csv_location : string;
  csv_notes : string
}.

(** What [pd.read_csv] finds in [LOG_FILE]: the header line of the four
    columns with records under it, as [to_csv] writes the file; nothing at
    all, as in a file of zero bytes; or a record with more fields than the
    header.  Files with other columns are outside the model. *)
Inductive CsvFile : Type :=
| Records (records : list CsvRecord)
| NoColumns
| Ragged.

(** [DataFrame.to_csv]: text as it is, NaN as the empty field ([na_rep=""]). *)
Definition to_csv_cell (v : value) : string :=
  match v with
  | VStr s => s
  | VNaN => ""%string
  end.

(** The program only writes a log that has at least one entry. *)
Definition to_csv (log : list Entry) : CsvFile :=
  Records
    (map (fun e =>
            {| csv_timestamp := to_csv_cell (timestamp e);
               csv_status := to_csv_cell (status e);
               csv_location := to_csv_cell (location e);
               csv_notes := to_csv_cell (notes e) |})
         log).

(** The texts [pd.read_csv] reads as missing by default
    ([keep_default_na=True], no [na_values]). *)
Definition STR_NA_VALUES : list string :=
  [ ""; "#N/A"; "#N/A N/A"; "#NA"; "-1.#IND"; "-1.#QNAN"; "-NaN"; "-nan";
    "1.#IND"; "1.#QNAN"; "<NA>"; "N/A"; "NA"; "NULL"; "NaN"; "None"; "n/a";
    "nan"; "null" ]%string.

Definition read_csv_cell (text : string) : value :=
  if existsb (String.eqb text) STR_NA_VALUES then VNaN else VStr text.

(** [pd.read_csv(LOG_FILE).to_dict("records")]. *)
Definition read_csv_records (f : CsvFile) : result (list Entry) :=
  match f with
  | Records records =>
      Ok (map (fun r =>
                 {| timestamp := read_csv_cell (csv_timestamp r);
                    status := read_csv_cell (csv_status r);
                    location := read_csv_cell (csv_location r);
                    notes := read_csv_cell (csv_notes r) |})
              records)
  | NoColumns => Raise EmptyDataError
  | Ragged => Raise ParserError
  end.

(** ** The world of a session *)

(** [fire_stations.csv] when it exists: either [pd.read_csv] parses it into
    rows (none, for a file that has only its header line), or it raises. *)
Inductive StationsCsv : Type :=
| Parsed (rows : list Station)
| Unparsable.

(** What the program shows through [st.sidebar.success], [st.sidebar.info]
    and [st.warning]. *)
Inductive Message : Type :=
| Success (text : string)
| Info (text : string)
| Warning (text : string).

Record World : Type := {
  (** [st.session_state["log"]]; [None] when the key is absent. *)
  session_log : option (list Entry);
  (** [LOG_FILE]; [None] when the file does not exist. *)
  log_file : option CsvFile;
  (** Whether [LOG_FILE] can be opened and written (permissions, disk). *)
  log_file_writable : bool;
  (** [fire_stations.csv]; [None] when the file does not exist. *)
  fire_stations_csv : option StationsCsv;
  (** What [datetime.now()] returns. *)
  clock : datetime;
  (** The messages shown so far, oldest first. *)
  shown : list Message
}.

Definition with_session_log (l : option (list Entry)) (w : World) : World :=
  {| session_log := l;
     log_file := log_file w;
     log_file_writable := log_file_writable w;
     fire_stations_csv := fire_stations_csv w;
     clock := clock w;
     shown := shown w |}.

Definition with_log_file (f : option CsvFile) (w : World) : World :=
  {| session_log := session_log w;
     log_file := f;
     log_file_writable := log_file_writable w;
     fire_stations_csv := fire_stations_csv w;
     clock := clock w;
     shown := shown w |}.

Definition with_shown (m : list Message) (w : World) : World :=
  {| session_log := session_log w;
     log_file := log_file w;
     log_file_writable := log_file_writable w;
     fire_stations_csv := fire_stations_csv w;
     clock := clock w;
     shown := m |}.

(** What happens outside the program between two interactions: time passes
    and the storage may become writable or stop being so. *)
Definition outside (t : datetime) (writable : bool) (w : World) : World :=
  {| session_log := session_log w;
     log_file := log_file w;
     log_file_writable := writable;
     fire_stations_csv := fire_stations_csv w;
     clock := t;
     shown := shown w |}.

(** A new session over the same files: an empty [st.session_state] and an
    empty page. *)
Definition new_session (w : World) : World :=
  {| session_log := None;
     log_file := log_file w;
     log_file_writable := log_file_writable w;
     fire_stations_csv := fire_stations_csv w;
     clock := clock w;
     shown := [] |}.

(** State and exceptions: what was written before a [raise] stays written. *)
Definition M (A : Type) : Type := World -> result A * World.

Definition ret {A : Type} (a : A) : M A := fun w => (Ok a, w).

Definition bind {A B : Type} (m : M A) (k : A -> M B) : M B :=
  fun w =>
    match m w with
    | (Ok a, w') => k a w'
    | (Raise e, w') => (Raise e, w')
    end.

Declare Scope m_scope.
Delimit Scope m_scope with M.
Notation "x <- m ;; k" := (bind m (fun x => k))
  (at level 61, m at next level, right associativity) : m_scope.
Notation "m ;; k" := (bind m (fun _ => k))
  (at level 61, right associativity) : m_scope.

(** [datetime.now()]. *)
Definition now : M datetime := fun w => (Ok (clock w), w).

(** ["log" in st.session_state]. *)
Definition has_log : M bool :=
  fun w => (Ok (match session_log w with Some _ => true | None => false end), w).

(** [st.session_state.log = l]. *)
Definition set_log (l : list Entry) : M unit :=
  fun w => (Ok tt, with_session_log (Some l) w).

(** [st.session_state.log] read as an attribute. *)
Definition get_log : M (list Entry) :=
  fun w =>
    match session_log w with
    | Some l => (Ok l, w)
    | None => (Raise AttributeError, w)
    end.

(** [st.session_state.log.append(entry)]: the list is changed in place. *)
Definition log_append (entry : Entry) : M unit :=
  (l <- get_log ;; set_log (l ++ [entry]))%M.

(** [pd.DataFrame(rows).to_csv(LOG_FILE, index=False)].  A write that fails
    is one that cannot open the file, which stays as it was; what a write
    that fails midway leaves in the file is not modelled. *)
Definition write_log_file (rows : list Entry) : M unit :=
  fun w =>
    if log_file_writable w
    then (Ok tt, with_log_file (Some (to_csv rows)) w)
    else (Raise OSError, w).

Definition show (m : Message) : M unit :=
  fun w => (Ok tt, with_shown (shown w ++ [m]) w).

(** ** The incident log *)

(** A parameter with a default: [None] when the caller leaves it out. *)
Definition or_default {A : Type} (arg : option A) (default : A) : A :=
  match arg with
  | Some a => a
  | None => default
  end.

(** [st.session_state.get("log", [])]. *)
Definition session_entries (w : World) : list Entry :=
  match session_log w with
  | Some l => l
  | None => []
  end.

(** The dictionary [log_event] builds. *)
Definition make_entry (ts status location notes : string) : Entry :=
  {| timestamp := VStr ts;
     status := VStr status;
     location := VStr location;
     notes := VStr notes |}.

(** [log_event(status, location, notes="")]. *)
Definition log_event (status location : string) (notes : option string)
  : M unit :=
  (let notes := or_default notes ""%string in
   t <- now ;;
   let ts := isoformat_seconds t in
   let entry := make_entry ts status location notes in
   present <- has_log ;;
   (if present then ret tt else set_log []) ;;
   log_append entry ;;
   l <- get_log ;;
   write_log_file l)%M.

Definition load_existing_log : M unit :=
  fun w =>
    match log_file w, session_log w with
    | Some f, None =>
        match read_csv_records f with
        | Ok records => set_log records w
        | Raise e => (Raise e, w)
        end
    | _, _ => (Ok tt, w)
    end.

(** ** The station repository *)

Definition load_fire_station_df : M (list Station) :=
  fun w =>
    match fire_stations_csv w with
    | Some (Parsed rows) => (Ok rows, w)
    | Some Unparsable => (Raise ParserError, w)
    | None => (Ok DEFAULT_FIRE_STATIONS, w)
    end.

(** ** The two buttons of the fire workflow *)

(** [selected_loc_name or "GPS"]. *)
Definition or_GPS (selected_loc_name : option string) : string :=
  match selected_loc_name with
  | None => "GPS"%string
  | Some s => if String.eqb s "" then "GPS"%string else s
  end.

(** The body of [if st.sidebar.button("... Dial Fire Station & Log Call")]. *)
Definition dial_and_log_call (selected_loc_name : option string) : M unit :=
  (log_event "CALL_PLACED" (or_GPS selected_loc_name) None ;;
   show (Success "Call logged – stay safe! 🚒"))%M.

(** The body of [if st.sidebar.button("... Mark Resolved")]. *)
Definition mark_resolved (selected_loc_name : option string) : M unit :=
  (log_event "RESOLVED" (or_GPS selected_loc_name) None ;;
   show (Success "Incident marked as resolved. Report saved."))%M.

(** A run of appends, each at its own clock reading and with the storage
    writable or not; an append that raises ends its interaction only. *)
Record Append : Type := {
  at_time : datetime;
  storage_ok : bool;
  a_status : string;
  a_location : string;
  a_notes : option string
}.

Fixpoint appends (calls : list Append) (w : World) : World :=
  match calls with
  | [] => w
  | c :: rest =>
      appends rest
        (snd (log_event (a_status c) (a_location c) (a_notes c)
                (outside (at_time c) (storage_ok c) w)))
  end.

(** The entry [log_event] builds from the arguments of a call. *)
Definition entry_of (c : Append) : Entry :=
  make_entry (isoformat_seconds (at_time c)) (a_status c) (a_location c)
    (or_default (a_notes c) ""%string).

(** An entry written to the file and read back. *)
Definition reread (e : Entry) : Entry :=
  {| timestamp := read_csv_cell (to_csv_cell (timestamp e));
     status := read_csv_cell (to_csv_cell (status e));
     location := read_csv_cell (to_csv_cell (location e));
     notes := read_csv_cell (to_csv_cell (notes e)) |}.

(** [fire_stations.csv] with its header line and no station under it. *)
Definition header_only (w : World) : World :=
  {| session_log := session_log w;
     log_file := log_file w;
     log_file_writable := log_file_writable w;
     fire_stations_csv := Some (Parsed []);
     clock := clock w;
     shown := shown w |}.

(** [fire_stations.csv] with two stations, the first at a latitude of 95
    degrees. *)
Definition beyond_the_pole (w : World) : World :=
  {| session_log := session_log w;
     log_file := log_file w;
     log_file_writable := log_file_writable w;
     fire_stations_csv :=
       Some (Parsed [ {| name := "A";
                         latitude := 95 # 1;
                         longitude := 774488 # 10000;
                         phone := "+918022851049" |};
                      {| name := "B";
                         latitude := 129225 # 10000;
                         longitude := 775051 # 10000;
                         phone := "+918022917567" |} ]);
     clock := clock w;
     shown := shown w |}.

(** A session that has just started on a machine without files, at half
    past nine in the morning of 3 November 2026. *)
Definition half_past_nine : datetime :=
  {| year := 2026; month := 11; day := 3;
     hour := 9; minute := 30; second := 0; microsecond := 250000 |}.

Definition first_run : World :=
  {| session_log := None;
     log_file := None;
     log_file_writable := true;
     fire_stations_csv := None;
     clock := half_past_nine;
     shown := [] |}.

(** The same session at the same moment, the log file not writable. *)
Definition read_only_run : World := outside half_past_nine false first_run.

(** The clock set back by an hour. *)
Definition half_past_eight : datetime :=
  {| year := 2026; month := 11; day := 3;
     hour := 8; minute := 30; second := 0; microsecond := 250000 |}.

(** Later within the same second. *)
Definition same_second_later : datetime :=
  {| year := 2026; month := 11; day := 3;
     hour := 9; minute := 30; second := 0; microsecond := 900000 |}.

(** The clicks of the scenario: the call is logged, then the incident is
    marked resolved, both at the Admin Block. *)
Definition call_placed_at (t : datetime) (writable : bool) : Append :=
  {| at_time := t; storage_ok := writable;
     a_status := "CALL_PLACED"; a_location := "Admin Block";
     a_notes := None |}.

Definition resolved_at (t : datetime) (writable : bool) : Append :=
  {| at_time := t; storage_ok := writable;
     a_status := "RESOLVED"; a_location := "Admin Block";
     a_notes := None |}.

(** ** The wizard of [main] *)

(** What [st.sidebar.selectbox(label, options, index=None)] can return: one
    of its options, or [None] while nothing is chosen. *)
Definition selectable (options : list string) (choice : option string)
  : Prop :=
  match choice with
  | None => True
  | Some s => In s options
  end.

(** The options of the "Risk Assessment" box. *)
Definition RISK_OPTIONS : list string :=
  ["Natural"; "Man‑made"; "Technical Faliure"]%string.

(** The options of the box that [main] builds for a risk type: the chain
    [if disaster_type == "Natural" ... elif (disaster_type == "Man-made")
    ... else ...]. *)
Definition subtype_options (disaster_type : string) : list string :=
  if String.eqb disaster_type "Natural" then
    ["Flood"; "Other"]%string
  else if String.eqb disaster_type "Man-made" then
    ["Fire"; "Train Accident"; "Infrastructure Collapse";
     "Machinery BreakDown"; "Medical Emergency"; "Other"]%string
  else
    ["IT system BreakDowm"; "Power Failure";
     "Transportation Accident involving trainee and staff"]%string.

(** Where a run of [main] goes after the boxes. *)
Inductive Flow : Type :=
| BaseMap             (* no risk type chosen: the map alone *)
| FireWorkflow        (* [subtype == "Fire"] *)
| UnsupportedNotice.  (* any other subtype, or none: the notice and the map *)

(** [if disaster_type: ... if subtype == "Fire": ... else: ... else: ...]. *)
Definition wizard_flow (disaster_type subtype : option string) : Flow :=
  match disaster_type with
  | None => BaseMap
  | Some d =>
      if String.eqb d "" then BaseMap
      else
        match subtype with
        | Some s => if String.eqb s "Fire" then FireWorkflow
                    else UnsupportedNotice
        | None => UnsupportedNotice
        end
  end.

(** ** The fire workflow of [main] *)

Definition IRIDM_LAT : Q := 129076 # 10000.
Definition IRIDM_LON : Q := 774329 # 10000.

(** [next((loc for loc in locations if loc["name"] == selected_loc_name),
    None)]. *)
Definition find_location (locations : list CampusLocation)
    (selected_loc_name : option string) : option CampusLocation :=
  match selected_loc_name with
  | None => None
  | Some n => find (fun loc => String.eqb (loc_name loc) n) locations
  end.

(** [selected_loc] of [main]. *)
Definition selected_location (selected_loc_name : option string)
  : option CampusLocation :=
  find_location CAMPUS_LOCATIONS selected_loc_name.

(** [user_lat, user_lon] of [main].  With the GPS box ticked a warning is
    shown and the campus centre is used; otherwise the coordinates are read
    off [selected_loc].  The result [None] stands for the [TypeError] of
    [selected_loc["latitude"]] when [selected_loc] is [None]. *)
Definition user_coordinates (gps_option : bool)
    (selected_loc : option CampusLocation) : M (option Coordinate) :=
  if gps_option then
    (show (Warning
       "GPS capture not implemented in this prototype. Using location centre.") ;;
     ret (Some (IRIDM_LAT, IRIDM_LON)))%M
  else
    ret (match selected_loc with
         | Some loc => Some (loc_latitude loc, loc_longitude loc)
         | None => None
         end).

Definition lift {A : Type} (r : result A) : M A := fun w => (r, w).

(** The resolution of [main]: the stations are loaded, the nearest one is
    taken and its ETA computed. *)
Definition nearest_and_eta
    (geodesic_km : Coordinate -> Coordinate -> Q)
    (sort_values : list StationRow -> list StationRow)
    (user_lat user_lon : Q) : M (StationRow * Z) :=
  (stations_df <- load_fire_station_df ;;
   nearest <- lift (nearest_fire_station geodesic_km sort_values
                      user_lat user_lon stations_df) ;;
   eta <- lift (eta_min (distance_km nearest)) ;;
   ret (nearest, eta))%M.

(** The two buttons, pressed one after the other over several runs of the
    script, each press at its own clock reading and with the storage
    writable or not. *)
Inductive Button : Type :=
| DialButton
| ResolvedButton.

Record Click : Type := {
  pressed : Button;
  chosen : option string;      (* [selected_loc_name] at the press *)
  pressed_at : datetime;
  writable_then : bool
}.

Definition press (b : Button) (selected_loc_name : option string) : M unit :=
  match b with
  | DialButton => dial_and_log_call selected_loc_name
  | ResolvedButton => mark_resolved selected_loc_name
  end.

Fixpoint clicks (cs : list Click) (w : World) : World :=
  match cs with
  | [] => w
  | c :: rest =>
      clicks rest
        (snd (press (pressed c) (chosen c)
                (outside (pressed_at c) (writable_then c) w)))
  end.

Definition button_status (b : Button) : string :=
  match b with
  | DialButton => "CALL_PLACED"
  | ResolvedButton => "RESOLVED"
  end.

(** The entry a press leaves in the log. *)
Definition click_entry (c : Click) : Entry :=
  make_entry (isoformat_seconds (pressed_at c)) (button_status (pressed c))
    (or_GPS (chosen c)) "".

(** What the two buttons can leave in the log, in the session that logged
    it or read back from the file. *)
Definition button_entry (e : Entry) : Prop :=
  exists ts loc,
    timestamp e = VStr ts /\ String.length ts = 19%nat /\
    (status e = VStr "CALL_PLACED" \/ status e = VStr "RESOLVED") /\
    location e = VStr loc /\ loc <> ""%string /\
    (notes e = VStr "" \/ notes e = VNaN).

(** A call logged at the Hostel at half past eight and its resolution at
    half past nine, both writes succeeding. *)
Definition hostel_call : Click :=
  {| pressed := DialButton; chosen := Some "Hostel"%string;
     pressed_at := half_past_eight; writable_then := true |}.

Definition hostel_resolved : Click :=
  {| pressed := ResolvedButton; chosen := Some "Hostel"%string;
     pressed_at := half_past_nine; writable_then := true |}.

(** An entry with its notes read as missing. *)
Definition without_notes (e : Entry) : Entry :=
  {| timestamp := timestamp e;
     status := status e;
     location := location e;
     notes := VNaN |}.

(** ** The map *)

(** The [data] of a layer. *)
Inductive LayerData : Type :=
| StationRows (rows : list Station)
| LocationRows (rows : list CampusLocation)
| LatLonRows (rows : list Coordinate)      (* [{"lat": lat, "lon": lon}] *)
| PathRows (paths : list (list (Q * Q))).  (* [{"path": [[lon, lat], ...]}] *)

Record Layer : Type := {
  layer_type : string;
  data : LayerData;
  get_position : option string;
  get_radius : option Z;
  get_fill_color : option (list Z);
  pickable : bool;
  get_width : option Z;
  get_color : option (list Z)
}.

Record ViewState : Type := {
  view_latitude : Q;
  view_longitude : Q;
  zoom : Z;
  pitch : Z
}.

Record Deck : Type := {
  layers : list Layer;
  initial_view_state : ViewState
}.

Definition stations_layer (stations_df : list Station) : Layer :=
  {| layer_type := "ScatterplotLayer";
     data := StationRows stations_df;
     get_position := Some "[longitude, latitude]"%string;
     get_radius := Some 150%Z;
     get_fill_color := Some [255; 0; 0; 160]%Z;
     pickable := true;
     get_width := None;
     get_color := None |}.

Definition locations_layer : Layer :=
  {| layer_type := "ScatterplotLayer";
     data := LocationRows CAMPUS_LOCATIONS;
     get_position := Some "[longitude, latitude]"%string;
     get_radius := Some 100%Z;
     get_fill_color := Some [0; 128; 255; 160]%Z;
     pickable := true;
     get_width := None;
     get_color := None |}.

Definition extinguishers_layer (ext_data : list Coordinate) : Layer :=
  {| layer_type := "ScatterplotLayer";
     data := LatLonRows ext_data;
     get_position := Some "[lon, lat]"%string;
     get_radius := Some 50%Z;
     get_fill_color := Some [0; 255; 0; 200]%Z;
     pickable := false;
     get_width := None;
     get_color := None |}.

(** [[lon, lat] for lat, lon in waypoints]. *)
Definition lon_lat (waypoints : list Coordinate) : list (Q * Q) :=
  map (fun p => (snd p, fst p)) waypoints.

Definition evac_layer (waypoints : list Coordinate) : Layer :=
  {| layer_type := "PathLayer";
     data := PathRows [lon_lat waypoints];
     get_position := None;
     get_radius := None;
     get_fill_color := None;
     pickable := false;
     get_width := Some 4%Z;
     get_color := Some [255; 165; 0]%Z |}.

(** The layers [draw_map] adds for the selected location. *)
Definition overlays (selected_loc : option CampusLocation)
    (highlight_evac : bool) : list Layer :=
  match selected_loc with
  | None => []
  | Some loc =>
      (match extinguishers loc with
       | [] => []
       | _ :: _ => [extinguishers_layer (extinguishers loc)]
       end) ++
      (if highlight_evac then [evac_layer (evac_path loc)] else [])
  end.

(** [draw_map(selected_loc, highlight_evac)]; the result is the deck handed
    to [st.pydeck_chart]. *)
Definition draw_map (selected_loc : option CampusLocation)
    (highlight_evac : bool) : M Deck :=
  (stations_df <- load_fire_station_df ;;
   let layers :=
     [stations_layer stations_df; locations_layer] ++
     overlays selected_loc highlight_evac in
   let view_state :=
     {| view_latitude := IRIDM_LAT;
        view_longitude := IRIDM_LON;
        zoom := 16;
        pitch := 45 |} in
   ret {| layers := layers; initial_view_state := view_state |})%M.

(** Where a scatterplot layer puts its dots, as [longitude, latitude]: the
    expression of [get_position] read on each row of the data. *)
Definition dots (l : Layer) : list (Q * Q) :=
  match data l with
  | StationRows rows => map (fun r => (longitude r, latitude r)) rows
  | LocationRows rows => map (fun r => (loc_longitude r, loc_latitude r)) rows
  | LatLonRows rows => map (fun p => (snd p, fst p)) rows
  | PathRows _ => []
  end.

(** The waypoints of the paths a layer draws, as [longitude, latitude]. *)
Definition paths (l : Layer) : list (list (Q * Q)) :=
  match data l with
  | PathRows ps => ps
  | _ => []
  end.

(** * Properties *)

(** ** Sorting by distance *)

Lemma by_distance_trans (a b c : StationRow) :
  by_distance a b -> by_distance b c -> by_distance a c.
Proof. unfold by_distance. apply Qle_trans. Qed.

Section InsertionSort.

Variable before : StationRow -> StationRow -> bool.
Hypothesis before_le : forall x y, before x y = true -> by_distance x y.
Hypothesis not_before_ge : forall x y, before x y = false -> by_distance y x.

Lemma insert_row_perm (x : StationRow) (df : list StationRow) :
  Permutation (insert_row before x df) (x :: df).
Proof.
  induction df as [|y rest IH]; simpl.
  - apply Permutation_refl.
  - destruct (before x y).
    + apply Permutation_refl.
    + eapply perm_trans; [apply perm_skip, IH | apply perm_swap].
Qed.

Lemma insert_row_sorted (x : StationRow) (df : list StationRow) :
  StronglySorted by_distance df ->
  StronglySorted by_distance (insert_row before x df).
Proof.
  induction df as [|y rest IH]; simpl; intros Hs.
  - constructor; constructor.
  - inversion Hs as [|? ? Hrest Hy]; subst.
    destruct (before x y) eqn:Hb.
    + constructor; [exact Hs|].
      constructor; [now apply before_le|].
      rewrite Forall_forall in *. intros z Hz.
      eapply by_distance_trans; [apply before_le, Hb | now apply Hy].
    + constructor; [now apply IH|].
      rewrite Forall_forall in *. intros z Hz.
      apply (Permutation_in _ (insert_row_perm x rest)) in Hz.
      destruct Hz as [<-|Hz]; [now apply not_before_ge | now apply Hy].
Qed.

Lemma insertion_sort_contract : sort_contract (insertion_sort before).
Proof.
  intros df. induction df as [|x rest [IHp IHs]]; simpl.
  - split; constructor.
  - split.
    + eapply perm_trans; [apply insert_row_perm | now apply perm_skip].
    + now apply insert_row_sorted.
Qed.

End InsertionSort.

Lemma sort_ties_in_order_contract : sort_contract sort_ties_in_order.
Proof.
  apply insertion_sort_contract; unfold by_distance; intros x y H.
  - now apply Qle_bool_iff.
  - destruct (Qlt_le_dec (distance_km x) (distance_km y)) as [Hlt|Hle].
    + apply Qlt_le_weak in Hlt. apply Qle_bool_iff in Hlt. congruence.
    + exact Hle.
Qed.

Lemma sort_ties_reversed_contract : sort_contract sort_ties_reversed.
Proof.
  apply insertion_sort_contract; unfold by_distance; intros x y H.
  - apply negb_true_iff in H.
    destruct (Qlt_le_dec (distance_km x) (distance_km y)) as [Hlt|Hle].
    + now apply Qlt_le_weak.
    + apply Qle_bool_iff in Hle. congruence.
  - apply negb_false_iff in H. now apply Qle_bool_iff.
Qed.

(** The first row of a frame sorted under the contract is one of the rows and
    no row is nearer. *)
Lemma sorted_head_least (sort : list StationRow -> list StationRow)
    (df : list StationRow) (h : StationRow) (t : list StationRow) :
  sort_contract sort -> sort df = h :: t ->
  In h df /\ forall y, In y df -> by_distance h y.
Proof.
  intros Hc Hsort. destruct (Hc df) as [Hp Hs]. rewrite Hsort in Hp, Hs.
  split.
  - apply (Permutation_in _ Hp). now left.
  - intros y Hy. apply (Permutation_in _ (Permutation_sym Hp)) in Hy.
    inversion Hs as [|? ? _ Hall]; subst.
    destruct Hy as [<-|Hy].
    + unfold by_distance. apply Qle_refl.
    + rewrite Forall_forall in Hall. now apply Hall.
Qed.

Lemma sorted_nonempty (sort : list StationRow -> list StationRow)
    (x : StationRow) (df : list StationRow) :
  sort_contract sort -> exists h t, sort (x :: df) = h :: t.
Proof.
  intros Hc. destruct (Hc (x :: df)) as [Hp _].
  destruct (sort (x :: df)) as [|h t] eqn:E.
  - apply Permutation_nil in Hp. discriminate.
  - eauto.
Qed.

(** ** The minimum of a list of distances *)

Lemma min_of_le (ds : list Q) :
  forall d x, In x (d :: ds) -> (min_of d ds <= x)%Q.
Proof.
  induction ds as [|d' rest IH]; intros d x Hx.
  - destruct Hx as [<-|[]]. simpl. apply Qle_refl.
  - simpl min_of.
    assert (Hm : ((if Qle_bool d d' then d else d') <= d /\
                  (if Qle_bool d d' then d else d') <= d')%Q).
    { destruct (Qle_bool d d') eqn:E.
      - split; [apply Qle_refl | now apply Qle_bool_iff].
      - split; [|apply Qle_refl].
        destruct (Qlt_le_dec d d') as [Hlt|Hle]; [|exact Hle].
        apply Qlt_le_weak, Qle_bool_iff in Hlt. congruence. }
    destruct Hm as [Hd Hd'].
    destruct Hx as [<-|[<-|Hx]].
    + eapply Qle_trans; [apply IH; now left | exact Hd].
    + eapply Qle_trans; [apply IH; now left | exact Hd'].
    + apply IH. now right.
Qed.

Lemma min_of_In (ds : list Q) : forall d, In (min_of d ds) (d :: ds).
Proof.
  induction ds as [|d' rest IH]; intros d.
  - now left.
  - simpl min_of. destruct (IH (if Qle_bool d d' then d else d')) as [H|H].
    + rewrite <- H. destruct (Qle_bool d d'); [now left | right; now left].
    + right; now right.
Qed.

(** ** The nearest-station resolver *)

Section ResolverFacts.

Variable geodesic_km : Coordinate -> Coordinate -> Q.
Variable sort_values : list StationRow -> list StationRow.
Hypothesis sort_values_ok : sort_contract sort_values.

Local Abbreviation rounded p s :=
  (round2 (geodesic_km p (latitude s, longitude s))).

(** Between two points geopy accepts the lambda returns the rounded length;
    otherwise it raises. *)
Lemma distance_to_run (lat lon : Q) (s : Station) :
  distance_to geodesic_km (lat, lon) s =
    if valid_latitude lat && valid_latitude (latitude s)
    then Ok (rounded (lat, lon) s)
    else Raise ValueError.
Proof.
  unfold distance_to, haversine_km, geodesic, valid_point. cbn [fst].
  now destruct (valid_latitude lat && valid_latitude (latitude s)).
Qed.

(** The column is added when every latitude is accepted, and only then. *)
Lemma apply_rows_run (lat lon : Q) (S : list Station) :
  S <> [] ->
  apply_rows (distance_to geodesic_km (lat, lon)) S =
    if valid_latitude lat && valid_stations S
    then Ok (map (row_with_distance geodesic_km lat lon) S)
    else Raise ValueError.
Proof.
  destruct (valid_latitude lat) eqn:Hlat; cbn [andb].
  - intros _. induction S as [|s rest IH]; [reflexivity|].
    cbn [apply_rows valid_stations forallb map].
    rewrite distance_to_run, Hlat. cbn [andb].
    destruct (valid_latitude (latitude s)); [|reflexivity].
    cbn [andb]. fold (valid_stations rest). rewrite IH.
    now destruct (valid_stations rest).
  - destruct S as [|s rest]; [congruence|]. intros _.
    cbn [apply_rows]. now rewrite distance_to_run, Hlat.
Qed.

Lemma with_distance_run (lat lon : Q) (S : list Station) :
  with_distance geodesic_km lat lon S =
    match S with
    | [] => Raise ValueError
    | _ :: _ =>
        if valid_latitude lat && valid_stations S
        then Ok (map (row_with_distance geodesic_km lat lon) S)
        else Raise ValueError
    end.
Proof.
  destruct S as [|s rest]; [reflexivity|].
  unfold with_distance. now apply apply_rows_run.
Qed.

(** A latitude geopy refuses, of the point or of a row, makes the resolver
    raise. *)
Lemma nearest_refuses (lat lon : Q) (S : list Station) :
  valid_latitude lat && valid_stations S = false ->
  nearest_fire_station geodesic_km sort_values lat lon S = Raise ValueError.
Proof.
  intros H. unfold nearest_fire_station. rewrite with_distance_run, H.
  now destruct S.
Qed.

(** On a frame with rows, all accepted, the resolver returns the first row
    of the sorted frame: a station of the input, with its rounded distance,
    and no station of the input is nearer. *)
Lemma nearest_is_least (lat lon : Q) (S : list Station) :
  valid_latitude lat = true ->
  valid_stations S = true ->
  S <> [] ->
  exists row,
    nearest_fire_station geodesic_km sort_values lat lon S = Ok row /\
    In (station row) S /\
    distance_km row = rounded (lat, lon) (station row) /\
    forall s, In s S -> (distance_km row <= rounded (lat, lon) s)%Q.
Proof.
  intros Hlat Hrows HS. destruct S as [|s0 S']; [congruence|].
  unfold nearest_fire_station. rewrite with_distance_run, Hlat, Hrows.
  cbn [andb].
  destruct (sorted_nonempty
              (row_with_distance geodesic_km lat lon s0)
              (map (row_with_distance geodesic_km lat lon) S')
              sort_values_ok) as (h & t & Hsort).
  change (row_with_distance geodesic_km lat lon s0
            :: map (row_with_distance geodesic_km lat lon) S')
    with (map (row_with_distance geodesic_km lat lon) (s0 :: S')) in Hsort.
  rewrite Hsort. simpl iloc0.
  destruct (sorted_head_least _ sort_values_ok Hsort) as [Hin Hleast].
  apply in_map_iff in Hin. destruct Hin as (s & <- & Hs).
  exists (row_with_distance geodesic_km lat lon s).
  repeat split; auto.
  intros s' Hs'.
  apply (Hleast (row_with_distance geodesic_km lat lon s')).
  now apply in_map.
Qed.

Lemma min_distance_km_spec (p : Coordinate) (S : list Station) :
  S <> [] ->
  exists m,
    min_distance_km geodesic_km p S = Some m /\
    (exists s, In s S /\ m = rounded p s) /\
    forall s, In s S -> (m <= rounded p s)%Q.
Proof.
  intros HS. destruct S as [|s0 S']; [congruence|].
  unfold min_distance_km. simpl map.
  eexists; split; [reflexivity|]. split.
  - pose proof (min_of_In (map (fun s => rounded p s) S') (rounded p s0)) as H.
    change (In (min_of (rounded p s0) (map (fun s => rounded p s) S'))
               (map (fun s => rounded p s) (s0 :: S'))) in H.
    apply in_map_iff in H. destruct H as (s & Hs & Hin). eauto.
  - intros s Hs. apply min_of_le.
    change (In (rounded p s) (map (fun s => rounded p s) (s0 :: S'))).
    now apply (in_map (fun s => rounded p s)).
Qed.

(** With the sort that keeps ties in input order, the rows before the
    first row of the sorted frame are all strictly farther. *)
Lemma ties_in_order_head (df : list StationRow) :
  forall h t,
    sort_ties_in_order df = h :: t ->
    exists l1 l2,
      df = l1 ++ h :: l2 /\
      (forall y, In y l1 -> (distance_km h < distance_km y)%Q) /\
      (forall y, In y l2 -> (distance_km h <= distance_km y)%Q).
Proof.
  induction df as [|x rest IH]; intros h t Hsort; [discriminate|].
  unfold sort_ties_in_order, insertion_sort in Hsort. simpl in Hsort.
  fold (insertion_sort
          (fun x y => Qle_bool (distance_km x) (distance_km y)) rest)
    in Hsort.
  fold (sort_ties_in_order rest) in Hsort.
  destruct (sort_ties_in_order rest) as [|h' t'] eqn:Hrest.
  - destruct (sort_ties_in_order_contract rest) as [Hp _].
    rewrite Hrest in Hp. apply Permutation_nil in Hp. subst rest.
    simpl in Hsort. injection Hsort as <- _.
    exists [], []. repeat split; intros y [].
  - destruct (IH _ _ eq_refl) as (l1 & l2 & -> & Hl1 & Hl2).
    simpl in Hsort.
    destruct (Qle_bool (distance_km x) (distance_km h')) eqn:Hb.
    + injection Hsort as <- _. apply Qle_bool_iff in Hb.
      exists [], (l1 ++ h' :: l2). repeat split; [intros y []|].
      intros y Hy. apply in_app_or in Hy.
      eapply Qle_trans; [exact Hb|].
      destruct Hy as [Hy|[<-|Hy]].
      * apply Qlt_le_weak. now apply Hl1.
      * apply Qle_refl.
      * now apply Hl2.
    + injection Hsort as <- _.
      exists (x :: l1), l2. repeat split; [|exact Hl2].
      intros y [<-|Hy]; [|now apply Hl1].
      apply Qnot_le_lt. intros Hle. apply Qle_bool_iff in Hle. congruence.
Qed.

Lemma find_first {A : Type} (f : A -> bool) (l1 l2 : list A) (x : A) :
  (forall y, In y l1 -> f y = false) -> f x = true ->
  find f (l1 ++ x :: l2) = Some x.
Proof.
  induction l1 as [|y l1 IH]; simpl; intros Hl1 Hx.
  - now rewrite Hx.
  - rewrite (Hl1 y (or_introl eq_refl)). apply IH; auto.
Qed.

(** With that sort the resolver returns the station of minimal rounded
    distance that comes first in the input. *)
Lemma nearest_ties_in_order (lat lon : Q) (S : list Station) :
  valid_latitude lat = true ->
  valid_stations S = true ->
  S <> [] ->
  exists row,
    nearest_fire_station geodesic_km sort_ties_in_order lat lon S = Ok row /\
    first_at_minimum geodesic_km (lat, lon) S = Some (station row).
Proof.
  intros Hlat Hrows HS.
  destruct (min_distance_km_spec (lat, lon) HS)
    as (m & Hm & (sm & Hsm & ->) & Hmin).
  unfold first_at_minimum. rewrite Hm.
  destruct S as [|s0 S']; [congruence|].
  unfold nearest_fire_station. rewrite with_distance_run, Hlat, Hrows.
  cbn [andb].
  destruct (sorted_nonempty
              (row_with_distance geodesic_km lat lon s0)
              (map (row_with_distance geodesic_km lat lon) S')
              sort_ties_in_order_contract) as (h & t & Hsort).
  change (row_with_distance geodesic_km lat lon s0
            :: map (row_with_distance geodesic_km lat lon) S')
    with (map (row_with_distance geodesic_km lat lon) (s0 :: S')) in *.
  rewrite Hsort. simpl iloc0. exists h. split; [reflexivity|].
  destruct (ties_in_order_head _ Hsort) as (l1 & l2 & Hsplit & Hl1 & Hl2).
  apply map_eq_app in Hsplit.
  destruct Hsplit as (S1 & S2 & HS12 & <- & Hcons).
  apply map_eq_cons in Hcons.
  destruct Hcons as (s & S3 & -> & <- & <-).
  rewrite HS12. simpl station.
  assert (Hleast : forall y, In y (S1 ++ s :: S3) ->
                     (rounded (lat, lon) s <= rounded (lat, lon) y)%Q).
  { intros y Hy. apply in_app_or in Hy. destruct Hy as [Hy|[<-|Hy]].
    - apply Qlt_le_weak.
      apply (Hl1 (row_with_distance geodesic_km lat lon y)).
      now apply in_map.
    - apply Qle_refl.
    - apply (Hl2 (row_with_distance geodesic_km lat lon y)).
      now apply in_map. }
  apply find_first.
  - intros y Hy.
    destruct (Qle_bool (rounded (lat, lon) y) (rounded (lat, lon) sm))
      eqn:E; [|reflexivity].
    apply Qle_bool_iff in E. exfalso.
    apply (Qlt_not_le (rounded (lat, lon) s) (rounded (lat, lon) y)).
    + apply (Hl1 (row_with_distance geodesic_km lat lon y)).
      now apply in_map.
    + eapply Qle_trans; [exact E|].
      apply Hmin. rewrite HS12. apply in_or_app. right. now left.
  - apply Qle_bool_iff. apply Hleast. rewrite <- HS12. exact Hsm.
Qed.

End ResolverFacts.

(** C1.  For every non-empty sequence of stations and every coordinate, the
    latitudes being in the range of the specification's Station and
    Coordinate (-90 to 90, what geopy accepts), the row returned by the
    nearest-station resolver belongs to a station of the sequence and has
    the minimum distance: its [distance_km] is the geodesic distance to that
    station rounded to two decimals, and it equals the minimum, over the
    stations of the sequence, of the geodesic distance from the coordinate
    rounded to two decimals.  The sort is any one that returns its input
    permuted into ascending order. *)
Theorem nearest_distance_is_minimum
    (geodesic_km : Coordinate -> Coordinate -> Q)
    (sort_values : list StationRow -> list StationRow)
    (lat lon : Q) (S : list Station) :
  sort_contract sort_values ->
  valid_latitude lat = true ->
  valid_stations S = true ->
  S <> [] ->
  exists row m,
    nearest_fire_station geodesic_km sort_values lat lon S = Ok row /\
    In (station row) S /\
    distance_km row =
      round2 (geodesic_km (lat, lon)
                (latitude (station row), longitude (station row))) /\
    min_distance_km geodesic_km (lat, lon) S = Some m /\
    (exists s, In s S /\
               m = round2 (geodesic_km (lat, lon) (latitude s, longitude s))) /\
    (forall s, In s S ->
       (m <= round2 (geodesic_km (lat, lon) (latitude s, longitude s)))%Q) /\
    (distance_km row == m)%Q.
Proof.
  intros Hsort Hlat Hrows HS.
  destruct (@nearest_is_least geodesic_km sort_values Hsort lat lon S
              Hlat Hrows HS)
    as (row & Hrow & Hin & Hd & Hleast).
  destruct (min_distance_km_spec geodesic_km (lat, lon) HS)
    as (m & Hm & (sm & Hsm & Hmeq) & Hmin).
  exists row, m. repeat split; auto.
  - exists sm. auto.
  - apply Qle_antisym.
    + rewrite Hmeq. now apply Hleast.
    + rewrite Hd. now apply Hmin.
Qed.

(** C1 at the Admin Block and the two default stations. *)
Lemma nearest_distance_is_minimum_witness :
  exists row m,
    nearest_fire_station taxicab_km sort_ties_in_order
      (129079 # 10000) (774332 # 10000) DEFAULT_FIRE_STATIONS = Ok row /\
    In (station row) DEFAULT_FIRE_STATIONS /\
    distance_km row =
      round2 (taxicab_km (129079 # 10000, 774332 # 10000)
                (latitude (station row), longitude (station row))) /\
    min_distance_km taxicab_km (129079 # 10000, 774332 # 10000)
      DEFAULT_FIRE_STATIONS = Some m /\
    (exists s, In s DEFAULT_FIRE_STATIONS /\
               m = round2 (taxicab_km (129079 # 10000, 774332 # 10000)
                             (latitude s, longitude s))) /\
    (forall s, In s DEFAULT_FIRE_STATIONS ->
       (m <= round2 (taxicab_km (129079 # 10000, 774332 # 10000)
                       (latitude s, longitude s)))%Q) /\
    (distance_km row == m)%Q.
Proof.
  apply (@nearest_distance_is_minimum taxicab_km sort_ties_in_order
           (129079 # 10000) (774332 # 10000) DEFAULT_FIRE_STATIONS).
  - exact sort_ties_in_order_contract.
  - reflexivity.
  - reflexivity.
  - discriminate.
Defined.

(** C2, as stated, fails.  The frame has four rows, two far stations and
    then two near ones at the same coordinates; the sort meets the contract
    of [sort_values] and, as a sort that is not stable may, brings the later
    of two rows of equal distance first.  Whatever the distance function
    that puts the far stations farther, the first of the two nearest
    stations in the order of the frame is the third row, and the resolver
    returns the fourth. *)
Lemma tie_break_counterexample :
  sort_contract sort_ties_reversed /\
  forall (geodesic_km : Coordinate -> Coordinate -> Q),
    (round2 (geodesic_km (129079 # 10000, 774332 # 10000)
               (latitude twin_a, longitude twin_a)) <
     round2 (geodesic_km (129079 # 10000, 774332 # 10000)
               (latitude far_a, longitude far_a)))%Q ->
    first_at_minimum geodesic_km (129079 # 10000, 774332 # 10000)
      far_then_near = Some twin_a /\
    exists row,
      nearest_fire_station geodesic_km sort_ties_reversed
        (129079 # 10000) (774332 # 10000) far_then_near = Ok row /\
      station row = twin_b /\
      distance_km row =
        round2 (geodesic_km (129079 # 10000, 774332 # 10000)
                  (latitude twin_a, longitude twin_a)) /\
      twin_b <> twin_a.
Proof.
  split; [exact sort_ties_reversed_contract|].
  intros g Hfar.
  remember (round2 (g (129079 # 10000, 774332 # 10000)
                      (latitude twin_a, longitude twin_a))) as near eqn:Ea.
  remember (round2 (g (129079 # 10000, 774332 # 10000)
                      (latitude far_a, longitude far_a))) as far eqn:Efa.
  assert (Eb : round2 (g (129079 # 10000, 774332 # 10000)
                         (latitude twin_b, longitude twin_b)) = near)
    by (rewrite Ea; reflexivity).
  assert (Efb : round2 (g (129079 # 10000, 774332 # 10000)
                          (latitude far_b, longitude far_b)) = far)
    by (rewrite Efa; reflexivity).
  assert (Hnn : Qle_bool near near = true) by apply Qle_bool_iff, Qle_refl.
  assert (Hff : Qle_bool far far = true) by apply Qle_bool_iff, Qle_refl.
  assert (Hnf : Qle_bool near far = true)
    by (apply Qle_bool_iff, Qlt_le_weak, Hfar).
  assert (Hfn : Qle_bool far near = false).
  { destruct (Qle_bool far near) eqn:E; [|reflexivity].
    apply Qle_bool_iff in E. exfalso. exact (Qlt_not_le _ _ Hfar E). }
  split.
  - unfold first_at_minimum, min_distance_km, far_then_near.
    cbn [map min_of].
    rewrite Eb, Efb, <- Ea, <- Efa, Hff, Hfn, Hnn.
    cbn [find].
    now rewrite Eb, Efb, <- Ea, <- Efa, Hfn, Hnn.
  - exists (row_with_distance g (129079 # 10000) (774332 # 10000) twin_b).
    unfold nearest_fire_station. rewrite with_distance_run.
    unfold far_then_near.
    replace (valid_latitude (129079 # 10000) &&
             valid_stations [far_a; far_b; twin_a; twin_b]) with true
      by reflexivity.
    unfold sort_ties_reversed, insertion_sort, row_with_distance.
    cbn [map fold_right insert_row distance_km].
    rewrite Eb, Efb, <- Ea, <- Efa.
    repeat (rewrite ?Hnn, ?Hff, ?Hnf, ?Hfn;
            cbn [negb insert_row distance_km]).
    cbn [iloc0 station].
    repeat split. discriminate.
Qed.

(** C2, amended.  On every non-empty sequence of stations, the latitudes
    being in range, the resolver returns a station of the sequence that no
    station of the sequence beats in rounded distance, so among equidistant
    nearest stations it returns one of them; which one is left to the sort.
    With a sort that keeps ties in input order it is the first of them in
    the order of the sequence. *)
Theorem nearest_is_some_minimum
    (geodesic_km : Coordinate -> Coordinate -> Q)
    (sort_values : list StationRow -> list StationRow)
    (lat lon : Q) (S : list Station) :
  sort_contract sort_values ->
  valid_latitude lat = true ->
  valid_stations S = true ->
  S <> [] ->
  (exists row,
     nearest_fire_station geodesic_km sort_values lat lon S = Ok row /\
     In (station row) S /\
     forall s, In s S ->
       (distance_km row <=
        round2 (geodesic_km (lat, lon) (latitude s, longitude s)))%Q) /\
  (exists row,
     nearest_fire_station geodesic_km sort_ties_in_order lat lon S = Ok row /\
     first_at_minimum geodesic_km (lat, lon) S = Some (station row)).
Proof.
  intros Hsort Hlat Hrows HS. split.
  - destruct (@nearest_is_least geodesic_km sort_values Hsort lat lon S
              Hlat Hrows HS)
      as (row & Hrow & Hin & _ & Hleast).
    exists row. auto.
  - now apply nearest_ties_in_order.
Qed.

(** C2, amended, at the Admin Block and the frame of four rows. *)
Lemma nearest_is_some_minimum_witness :
  (exists row,
     nearest_fire_station taxicab_km sort_ties_reversed
       (129079 # 10000) (774332 # 10000) far_then_near = Ok row /\
     In (station row) far_then_near /\
     forall s, In s far_then_near ->
       (distance_km row <=
        round2 (taxicab_km (129079 # 10000, 774332 # 10000)
                  (latitude s, longitude s)))%Q) /\
  (exists row,
     nearest_fire_station taxicab_km sort_ties_in_order
       (129079 # 10000) (774332 # 10000) far_then_near = Ok row /\
     first_at_minimum taxicab_km (129079 # 10000, 774332 # 10000)
       far_then_near = Some (station row)).
Proof.
  apply (@nearest_is_some_minimum taxicab_km sort_ties_reversed
           (129079 # 10000) (774332 # 10000) far_then_near).
  - exact sort_ties_reversed_contract.
  - reflexivity.
  - reflexivity.
  - discriminate.
Defined.

(** C3, as stated, fails: on an empty station sequence the resolver does not
    fail with [EmptyInputError]. *)
Lemma empty_input_counterexample :
  ~ (forall (geodesic_km : Coordinate -> Coordinate -> Q)
            (sort_values : list StationRow -> list StationRow)
            (lat lon : Q),
        nearest_fire_station geodesic_km sort_values lat lon [] =
        Raise EmptyInputError).
Proof.
  intros H.
  specialize (H taxicab_km sort_ties_in_order (0 # 1) (0 # 1)).
  discriminate H.
Qed.

(** C3, amended.  For every coordinate, the resolver invoked with an empty
    station sequence fails, and the failure is the [ValueError] of the column
    assignment: it neither returns a station nor raises any other error. *)
Theorem nearest_of_no_station
    (geodesic_km : Coordinate -> Coordinate -> Q)
    (sort_values : list StationRow -> list StationRow)
    (lat lon : Q) :
  nearest_fire_station geodesic_km sort_values lat lon [] = Raise ValueError.
Proof. reflexivity. Qed.

(** ** ETA *)

(** *** Signs through the rounding of binary64 *)

Lemma shr_1_nonneg (mrs : shr_record) :
  (0 <= shr_m mrs)%Z -> (0 <= shr_m (shr_1 mrs))%Z.
Proof.
  destruct mrs as [m r s]. cbn [shr_m].
  destruct m as [|[p|p|]|[p|p|]]; cbn; lia.
Qed.

Lemma iter_shr_1_nonneg (p : positive) :
  forall mrs,
    (0 <= shr_m mrs)%Z -> (0 <= shr_m (iter_pos shr_1 p mrs))%Z.
Proof.
  induction p as [p IH|p IH|]; intros mrs H; cbn [iter_pos].
  - apply IH, IH, shr_1_nonneg, H.
  - apply IH, IH, H.
  - apply shr_1_nonneg, H.
Qed.

Lemma shr_fexp_nonneg (prec emax m e : Z) (l : SpecFloat.location) :
  (0 <= m)%Z -> (0 <= shr_m (fst (shr_fexp prec emax m e l)))%Z.
Proof.
  intros H. unfold shr_fexp, shr.
  assert (H0 : (0 <= shr_m (shr_record_of_loc m l))%Z)
    by (destruct l as [|[]]; exact H).
  destruct (_ - e)%Z; cbn [fst]; try exact H0.
  apply iter_shr_1_nonneg, H0.
Qed.

Lemma round_nearest_even_nonneg (m : Z) (l : SpecFloat.location) :
  (0 <= m)%Z -> (0 <= round_nearest_even m l)%Z.
Proof.
  intros H. destruct l as [|[]]; cbn [round_nearest_even]; try lia.
  destruct (Z.even m); lia.
Qed.

(** Rounding a mantissa that is not negative, with the sign bit clear,
    gives a zero, a positive number or the positive infinity. *)
Lemma binary_round_aux_nonneg (prec emax m e : Z) (l : SpecFloat.location) :
  (0 <= m)%Z -> sf_nonneg (binary_round_aux prec emax false m e l).
Proof.
  intros H. unfold binary_round_aux.
  pose proof (shr_fexp_nonneg prec emax e l H) as H1.
  destruct (shr_fexp prec emax m e l) as [mrs' e']. cbn [fst] in H1.
  pose proof (shr_fexp_nonneg prec emax e' loc_Exact
                (round_nearest_even_nonneg (loc_of_shr_record mrs') H1)) as H2.
  destruct (shr_fexp prec emax _ e' loc_Exact) as [mrs'' e'']. cbn [fst] in H2.
  destruct (shr_m mrs''); [exact I| |lia].
  destruct (_ <=? _)%Z; reflexivity.
Qed.

Lemma SFdiv_nonneg (prec emax : Z) (x y : spec_float) :
  sf_nonneg x -> sf_finite_pos y -> sf_nonneg (SFdiv prec emax x y).
Proof.
  destruct x as [sx|sx| |sx mx ex], y as [sy|sy| |sy my ey]; cbn; try tauto.
  - intros -> ->. reflexivity.
  - intros -> ->. cbn [xorb].
    unfold SFdiv_core_binary.
    set (m' := match _ with Zpos _ => _ | Z0 => _ | Zneg _ => _ end).
    assert (Hm : (0 <= m')%Z).
    { subst m'. destruct (_ - _ - _)%Z; try lia. apply Z.shiftl_nonneg. lia. }
    pose proof (Z.div_pos m' (Zpos my) Hm eq_refl) as Hq.
    unfold Z.div in Hq. destruct (Z.div_eucl m' (Zpos my)) as [q r].
    apply binary_round_aux_nonneg, Hq.
Qed.

Lemma SFmul_nonneg (prec emax : Z) (x y : spec_float) :
  sf_nonneg x -> sf_finite_pos y -> sf_nonneg (SFmul prec emax x y).
Proof.
  destruct x as [sx|sx| |sx mx ex], y as [sy|sy| |sy my ey]; cbn; try tauto.
  - intros -> ->. reflexivity.
  - intros -> ->. cbn [xorb]. apply binary_round_aux_nonneg. lia.
Qed.

Lemma finite_nonneg_spec (x : float) :
  finite_nonneg x = true -> sf_nonneg (Prim2SF x).
Proof.
  unfold finite_nonneg.
  rewrite andb_true_iff, FloatAxioms.leb_spec, FloatAxioms.ltb_spec.
  change (Prim2SF 0) with (S754_zero false).
  change (Prim2SF infinity) with (S754_infinity false).
  destruct (Prim2SF x) as [s|[]| |[] m e]; cbn; intros [H1 H2];
    try discriminate; auto.
Qed.

Lemma finite_pos_spec (x : float) :
  finite_pos x = true -> sf_finite_pos (Prim2SF x).
Proof.
  unfold finite_pos. rewrite andb_true_iff, 2!FloatAxioms.ltb_spec.
  change (Prim2SF 0) with (S754_zero false).
  change (Prim2SF infinity) with (S754_infinity false).
  destruct (Prim2SF x) as [s|[]| |[] m e]; cbn; intros [H1 H2];
    try discriminate; auto.
Qed.

(** The travel time in minutes is a zero, a positive number or the positive
    infinity, never a NaN or a negative number. *)
Lemma travel_time_nonneg (d s : float) :
  sf_nonneg (Prim2SF d) -> sf_finite_pos (Prim2SF s) ->
  sf_nonneg (Prim2SF ((d / s) * 60)%float).
Proof.
  intros Hd Hs. rewrite mul_spec, div_spec.
  apply SFmul_nonneg; [|reflexivity].
  now apply SFdiv_nonneg.
Qed.

(** *** [int] *)

Lemma Qnum_nonneg (x : Q) : (0 <= x)%Q -> (0 <= Qnum x)%Z.
Proof. unfold Qle. simpl. lia. Qed.

(** On a non-negative value, truncation toward zero is the floor. *)
Lemma truncate_is_floor (x : Q) : (0 <= x)%Q -> truncate x = Qfloor x.
Proof.
  intros Hx. apply Qnum_nonneg in Hx.
  unfold truncate, Qfloor. destruct x as [n d]. simpl in *.
  apply Z.quot_div_nonneg; lia.
Qed.

Lemma float_number_nonneg (x : float) :
  sf_nonneg (Prim2SF x) ->
  float_number x = Infinite false \/
  exists q, float_number x = Finite q /\ (0 <= q)%Q.
Proof.
  unfold float_number. destruct (Prim2SF x) as [s|s| |s m e]; cbn [sf_nonneg].
  - intros _. right. exists (0 # 1). split; [reflexivity | discriminate].
  - intros ->. now left.
  - intros [].
  - intros ->. right. eexists. split; [reflexivity|].
    rewrite Qred_correct. destruct (0 <=? e)%Z.
    + unfold Qle. cbn [Qnum Qden inject_Z].
      assert (0 <= 2 ^ e)%Z by (apply Z.pow_nonneg; lia). nia.
    + unfold Qle. cbn [Qnum Qden]. lia.
Qed.

(** [int] of such a value is the floor of what it stands for, or the
    [OverflowError] of the infinity. *)
Lemma int_nonneg (x : float) :
  sf_nonneg (Prim2SF x) ->
  (float_number x = Infinite false /\ int x = Raise OverflowError) \/
  (exists q, float_number x = Finite q /\ (0 <= q)%Q /\
             int x = Ok (Qfloor q) /\ (0 <= Qfloor q)%Z).
Proof.
  intros H. unfold int.
  destruct (float_number_nonneg x H) as [E|(q & E & Hq)]; rewrite E.
  - left. now split.
  - right. exists q. repeat split; auto.
    + now rewrite truncate_is_floor.
    + change 0%Z with (Qfloor (0 # 1)). now apply Qfloor_resp_le.
Qed.

Lemma eta_minutes_zero (s : float) :
  finite_pos s = true -> eta_minutes 0 s = Ok 0%Z.
Proof.
  intros Hs. apply finite_pos_spec in Hs.
  unfold eta_minutes, int, float_number. rewrite mul_spec, div_spec.
  change (Prim2SF 0) with (S754_zero false).
  change (Prim2SF 60) with (S754_finite false 8444249301319680 (-47)).
  destruct (Prim2SF s) as [sy|sy| |sy my ey]; try contradiction.
  reflexivity.
Qed.

(** *** The ETA at the speed of the program *)

Lemma of_uint63_nonneg (i : Uint63.int) : sf_nonneg (Prim2SF (of_uint63 i)).
Proof.
  rewrite of_uint63_spec.
  pose proof (Uint63.to_Z_bounded i) as [Hb _].
  destruct (Uint63.to_Z i) as [|m|m]; [exact I| |lia].
  unfold binary_normalize, binary_round.
  destruct (shl_align _ _ _) as [mz ez].
  apply binary_round_aux_nonneg. lia.
Qed.

(** A number of hundredths that is not negative becomes a float that is not
    negative. *)
Lemma float_of_Z_nonneg (n : Z) :
  (0 <= n)%Z -> sf_nonneg (Prim2SF (float_of_Z n)).
Proof.
  intros Hn. unfold float_of_Z.
  destruct n as [|p|p]; [| |lia]; apply of_uint63_nonneg.
Qed.

Lemma as_float_nonneg (n : Z) :
  (0 <= n)%Z -> sf_nonneg (Prim2SF (as_float (n # 100))).
Proof.
  intros Hn. unfold as_float. cbn [Qnum Qden]. rewrite div_spec.
  apply SFdiv_nonneg; [now apply float_of_Z_nonneg | reflexivity].
Qed.

(** A distance of hundredths that is not negative gets an ETA that is not
    negative, unless the computation overflows. *)
Lemma eta_min_nonneg (n : Z) :
  (0 <= n)%Z ->
  eta_min (n # 100) = Raise OverflowError \/
  exists eta, eta_min (n # 100) = Ok eta /\ (0 <= eta)%Z.
Proof.
  intros Hn. unfold eta_min, eta_minutes.
  pose proof (@travel_time_nonneg (as_float (n # 100))
                (float_of_Z AVG_FIRE_TRUCK_SPEED_KMPH)
                (as_float_nonneg Hn) eq_refl) as Ht.
  destruct (int_nonneg _ Ht) as [[_ E]|(q & _ & _ & E & Hq)].
  - now left.
  - right. eauto.
Qed.

Lemma exact_below_spec (bound n : Z) :
  exact_below bound = true ->
  (0 <= n < bound)%Z ->
  eta_min (n # 100) = Ok (Qfloor ((n # 100) * (3 # 2))).
Proof.
  intros H Hn. unfold exact_below in H. rewrite forallb_forall in H.
  specialize (H n).
  destruct (eta_min (n # 100)) as [k|e].
  - f_equal. apply Z.eqb_eq, H, in_map_iff.
    exists (Z.to_nat n). split; [lia|]. apply in_seq. lia.
  - enough (false = true) by discriminate.
    apply H, in_map_iff.
    exists (Z.to_nat n). split; [lia|]. apply in_seq. lia.
Qed.

Lemma exact_below_8200 : exact_below 8200 = true.
Proof. vm_compute. reflexivity. Qed.

(** Below 82 km the ETA is the exact floor of one and a half times the
    distance. *)
Lemma eta_min_exact (n : Z) :
  (0 <= n < 8200)%Z ->
  eta_min (n # 100) = Ok (Qfloor ((n # 100) * (3 # 2))).
Proof. apply exact_below_spec, exact_below_8200. Qed.

(** C9, as stated, fails: at 82 km and 40 km/h the quotient 2.05 is not a
    binary64 value, the product comes out just under 123, and the ETA is
    122 where the floor of distance / speed * 60 is 123. *)
Lemma eta_floor_counterexample :
  finite_nonneg 82 = true /\
  finite_pos 40 = true /\
  float_number 82 = Finite (82 # 1) /\
  float_number 40 = Finite (40 # 1) /\
  eta_minutes 82 40 = Ok 122%Z /\
  Qfloor ((82 # 1) / (40 # 1) * (60 # 1)) = 123%Z.
Proof. repeat split; vm_compute; reflexivity. Qed.

(** C9, amended.  For every finite non-negative distance and finite
    positive speed the ETA computation returns the integer floor of the
    binary64 value of (distance / speed) * 60, each of the two operations
    rounded to the nearest binary64 value, and that integer is not negative;
    when the value overflows to the infinity the computation raises
    [OverflowError] instead.  The ETA of distance 0 is 0 at every finite
    positive speed.  At the speed of the program, 40 km/h, and a distance of
    two decimals below 82 km, the ETA is the floor of the exact
    distance / 40 * 60. *)
Theorem eta_minutes_is_floor (d s : float) :
  finite_nonneg d = true ->
  finite_pos s = true ->
  ((float_number ((d / s) * 60)%float = Infinite false /\
    eta_minutes d s = Raise OverflowError) \/
   (exists q,
      float_number ((d / s) * 60)%float = Finite q /\
      (0 <= q)%Q /\
      eta_minutes d s = Ok (Qfloor q) /\
      (0 <= Qfloor q)%Z)) /\
  eta_minutes 0 s = Ok 0%Z /\
  (forall n, (0 <= n < 8200)%Z ->
     eta_min (n # 100) = Ok (Qfloor ((n # 100) / (40 # 1) * (60 # 1)))).
Proof.
  intros Hd Hs. split; [|split].
  - apply int_nonneg, travel_time_nonneg.
    + now apply finite_nonneg_spec.
    + now apply finite_pos_spec.
  - now apply eta_minutes_zero.
  - intros n Hn. rewrite (eta_min_exact Hn). f_equal.
    apply Qfloor_comp. field.
Qed.

(** C9, amended, at 2.5 km and the speed of the program: 3 minutes. *)
Lemma eta_minutes_is_floor_witness :
  ((float_number ((2.5 / 40) * 60)%float = Infinite false /\
    eta_minutes (2.5) 40 = Raise OverflowError) \/
   (exists q,
      float_number ((2.5 / 40) * 60)%float = Finite q /\
      (0 <= q)%Q /\
      eta_minutes (2.5) 40 = Ok (Qfloor q) /\
      (0 <= Qfloor q)%Z)) /\
  eta_minutes 0 40 = Ok 0%Z /\
  (forall n, (0 <= n < 8200)%Z ->
     eta_min (n # 100) = Ok (Qfloor ((n # 100) / (40 # 1) * (60 # 1)))).
Proof.
  apply (@eta_minutes_is_floor (2.5) 40);
    vm_compute; reflexivity.
Defined.

(** ** Timestamps *)

(** Comparing two numbers is comparing their leading digits, then the rest. *)
Lemma split_compare (base qa ra qb rb : N) :
  (ra < base)%N -> (rb < base)%N ->
  (base * qa + ra ?= base * qb + rb)%N =
  match (qa ?= qb)%N with
  | Eq => (ra ?= rb)%N
  | c => c
  end.
Proof.
  intros Ha Hb.
  destruct (N.compare_spec qa qb) as [->|Hq|Hq].
  - destruct (N.compare_spec ra rb) as [->|Hr|Hr].
    + apply N.compare_refl.
    + apply N.compare_lt_iff. lia.
    + apply N.compare_gt_iff. lia.
  - apply N.compare_lt_iff. nia.
  - apply N.compare_gt_iff. nia.
Qed.

Lemma div_mod_compare (base a b : N) :
  base <> 0%N ->
  (a ?= b)%N =
  match (a / base ?= b / base)%N with
  | Eq => (a mod base ?= b mod base)%N
  | c => c
  end.
Proof.
  intros Hbase.
  rewrite (N.Div0.div_mod a base) at 1.
  rewrite (N.Div0.div_mod b base) at 1.
  apply split_compare; now apply N.mod_lt.
Qed.

Lemma digit_compare (a b : N) :
  (a < 10)%N -> (b < 10)%N ->
  Ascii.compare (digit a) (digit b) = (a ?= b)%N.
Proof.
  intros Ha Hb. unfold Ascii.compare, digit.
  rewrite !N.mod_small by assumption.
  rewrite !N_ascii_embedding by lia.
  destruct (N.compare_spec a b) as [->|H|H].
  - apply N.compare_refl.
  - apply N.compare_lt_iff. lia.
  - apply N.compare_gt_iff. lia.
Qed.

Lemma pad2_compare (a b : N) (s t : string) :
  (a < 100)%N -> (b < 100)%N ->
  String.compare (pad2 a ++ s) (pad2 b ++ t) =
  match (a ?= b)%N with
  | Eq => String.compare s t
  | c => c
  end.
Proof.
  intros Ha Hb. unfold pad2. cbn [append String.compare].
  assert (Hqa : (a / 10 < 10)%N) by (apply N.Div0.div_lt_upper_bound; lia).
  assert (Hqb : (b / 10 < 10)%N) by (apply N.Div0.div_lt_upper_bound; lia).
  assert (Hra : (a mod 10 < 10)%N) by (apply N.mod_lt; lia).
  assert (Hrb : (b mod 10 < 10)%N) by (apply N.mod_lt; lia).
  rewrite (digit_compare Hqa Hqb).
  assert (Hlast : Ascii.compare (digit a) (digit b)
                  = (a mod 10 ?= b mod 10)%N).
  { rewrite <- (digit_compare Hra Hrb). unfold digit.
    now rewrite !N.Div0.mod_mod. }
  rewrite Hlast.
  rewrite (@div_mod_compare 10 a b) by lia.
  destruct (a / 10 ?= b / 10)%N; reflexivity.
Qed.

Lemma pad4_compare (a b : N) (s t : string) :
  (a < 10000)%N -> (b < 10000)%N ->
  String.compare (pad4 a ++ s) (pad4 b ++ t) =
  match (a ?= b)%N with
  | Eq => String.compare s t
  | c => c
  end.
Proof.
  intros Ha Hb. unfold pad4.
  assert (Happ : forall x y z : N,
             ((pad2 x ++ pad2 y) ++ s)%string = (pad2 x ++ (pad2 y ++ s))%string
             /\ ((pad2 x ++ pad2 y) ++ t)%string = (pad2 x ++ (pad2 y ++ t))%string)
    by (intros; split; reflexivity).
  rewrite (proj1 (Happ (a / 100) (a mod 100) 0))%N.
  rewrite (proj2 (Happ (b / 100) (b mod 100) 0))%N.
  rewrite pad2_compare by (apply N.Div0.div_lt_upper_bound; lia).
  rewrite pad2_compare by (apply N.mod_lt; lia).
  rewrite (@div_mod_compare 100 a b) by lia.
  destruct (a / 100 ?= b / 100)%N; reflexivity.
Qed.

Lemma same_char_compare (c : ascii) (s t : string) :
  String.compare (String c s) (String c t) = String.compare s t.
Proof.
  cbn [String.compare]. unfold Ascii.compare. now rewrite N.compare_refl.
Qed.

Lemma separator_compare (c : ascii) (s t : string) :
  String.compare (String c EmptyString ++ s) (String c EmptyString ++ t) =
  String.compare s t.
Proof. cbn [append]. apply same_char_compare. Qed.

(** The text order of two timestamps is the order of the clock readings
    they were made from, read to the second. *)
Lemma isoformat_compare (t1 t2 : datetime) :
  valid_datetime t1 -> valid_datetime t2 ->
  String.compare (isoformat_seconds t1) (isoformat_seconds t2) =
  lex_compare (to_second t1) (to_second t2).
Proof.
  intros V1 V2. unfold valid_datetime in V1, V2.
  unfold isoformat_seconds, to_second. cbn [lex_compare].
  rewrite pad4_compare by lia. rewrite separator_compare.
  rewrite pad2_compare by lia. rewrite separator_compare.
  rewrite pad2_compare by lia. rewrite separator_compare.
  rewrite pad2_compare by lia. rewrite separator_compare.
  rewrite pad2_compare by lia. rewrite separator_compare.
  change (pad2 (second t1)) with (pad2 (second t1) ++ "")%string.
  change (pad2 (second t2)) with (pad2 (second t2) ++ "")%string.
  rewrite pad2_compare by lia.
  reflexivity.
Qed.

Lemma lex_compare_eq (a b : list N) : lex_compare a b = Eq <-> a = b.
Proof.
  revert b. induction a as [|x a IH]; intros [|y b]; cbn [lex_compare];
    try (split; [discriminate | discriminate || congruence]).
  - split; reflexivity.
  - destruct (N.compare_spec x y) as [->|H|H].
    + rewrite IH. split; congruence.
    + split; [discriminate | intros E; injection E as -> _; lia].
    + split; [discriminate | intros E; injection E as -> _; lia].
Qed.

(** Same second, same timestamp; and only then. *)
Lemma isoformat_eq (t1 t2 : datetime) :
  valid_datetime t1 -> valid_datetime t2 ->
  (isoformat_seconds t1 = isoformat_seconds t2 <-> to_second t1 = to_second t2).
Proof.
  intros V1 V2. rewrite <- lex_compare_eq, <- (isoformat_compare V1 V2).
  split.
  - intros ->. generalize (isoformat_seconds t2) as s.
    induction s as [|c s IH]; [reflexivity|].
    now rewrite same_char_compare.
  - apply String.compare_eq_iff.
Qed.

Lemma isoformat_leb (t1 t2 : datetime) :
  valid_datetime t1 -> valid_datetime t2 -> not_later t1 t2 ->
  String.leb (isoformat_seconds t1) (isoformat_seconds t2) = true.
Proof.
  intros V1 V2 H. unfold String.leb. rewrite (isoformat_compare V1 V2).
  unfold not_later in H.
  destruct (lex_compare (to_second t1) (to_second t2)); congruence.
Qed.

(** ** The incident log *)

(** What one call of [log_event] does: the entry is appended to the session's
    sequence, created empty if it was absent, and then the whole sequence is
    written to the file, which fails when the file cannot be written. *)
Lemma log_event_run (status location : string) (notes : option string)
    (w : World) :
  log_event status location notes w =
  let l := session_entries w ++
           [make_entry (isoformat_seconds (clock w)) status location
              (or_default notes ""%string)] in
  if log_file_writable w
  then (Ok tt, with_log_file (Some (to_csv l)) (with_session_log (Some l) w))
  else (Raise OSError, with_session_log (Some l) w).
Proof.
  destruct w as [[l|] f [|] c t m]; reflexivity.
Qed.

Lemma log_event_session (status location : string) (notes : option string)
    (w : World) :
  session_log (snd (log_event status location notes w)) =
  Some (session_entries w ++
        [make_entry (isoformat_seconds (clock w)) status location
           (or_default notes ""%string)]).
Proof.
  rewrite log_event_run. cbv zeta. destruct (log_file_writable w); reflexivity.
Qed.

Lemma log_event_result (status location : string) (notes : option string)
    (w : World) :
  fst (log_event status location notes w) =
  if log_file_writable w then Ok tt else Raise OSError.
Proof.
  rewrite log_event_run. cbv zeta. destruct (log_file_writable w); reflexivity.
Qed.

Lemma log_event_file (status location : string) (notes : option string)
    (w : World) :
  log_file (snd (log_event status location notes w)) =
  if log_file_writable w
  then Some (to_csv (session_entries w ++
                     [make_entry (isoformat_seconds (clock w)) status location
                        (or_default notes ""%string)]))
  else log_file w.
Proof.
  rewrite log_event_run. cbv zeta. destruct (log_file_writable w); reflexivity.
Qed.

Lemma log_event_shown (status location : string) (notes : option string)
    (w : World) :
  shown (snd (log_event status location notes w)) = shown w.
Proof.
  rewrite log_event_run. cbv zeta. destruct (log_file_writable w); reflexivity.
Qed.

Lemma append_step (c : Append) (w : World) :
  session_log
    (snd (log_event (a_status c) (a_location c) (a_notes c)
            (outside (at_time c) (storage_ok c) w))) =
  Some (session_entries w ++ [entry_of c]).
Proof. now rewrite log_event_session. Qed.

(** A run of appends adds its entries to the session's sequence, in order,
    whether or not the writes succeed. *)
Lemma appends_entries (calls : list Append) :
  forall w,
    session_entries (appends calls w) =
    session_entries w ++ map entry_of calls.
Proof.
  induction calls as [|c rest IH]; intros w; simpl.
  - now rewrite app_nil_r.
  - rewrite IH. unfold session_entries at 1. rewrite append_step.
    now rewrite <- app_assoc.
Qed.

Lemma appends_from_log (calls : list Append) :
  forall w l,
    session_log w = Some l ->
    session_log (appends calls w) = Some (l ++ map entry_of calls).
Proof.
  induction calls as [|c rest IH]; intros w l Hw; simpl.
  - now rewrite app_nil_r.
  - rewrite (IH _ _ (append_step c w)).
    unfold session_entries. rewrite Hw. now rewrite <- app_assoc.
Qed.

Lemma appends_session_log (c : Append) (rest : list Append) (w : World) :
  session_log (appends (c :: rest) w) =
  Some (session_entries w ++ map entry_of (c :: rest)).
Proof.
  simpl. rewrite (appends_from_log rest _ (append_step c w)).
  now rewrite <- app_assoc.
Qed.

Lemma appends_snoc (calls : list Append) (c : Append) :
  forall w,
    appends (calls ++ [c]) w =
    snd (log_event (a_status c) (a_location c) (a_notes c)
           (outside (at_time c) (storage_ok c) (appends calls w))).
Proof.
  induction calls as [|c' rest IH]; intros w; simpl; [reflexivity|].
  apply IH.
Qed.

(** After a run of appends whose last write succeeded, the file holds the
    whole sequence of the session. *)
Lemma appends_file (calls : list Append) (c : Append) (w : World) :
  storage_ok c = true ->
  log_file (appends (calls ++ [c]) w) =
  Some (to_csv (session_entries w ++ map entry_of (calls ++ [c]))).
Proof.
  intros Hok. rewrite appends_snoc, log_event_file.
  cbn [outside log_file_writable clock]. rewrite Hok.
  unfold session_entries at 1. cbn [outside session_log].
  fold (session_entries (appends calls w)).
  rewrite appends_entries, map_app, app_assoc. reflexivity.
Qed.

Lemma read_csv_records_to_csv (l : list Entry) :
  read_csv_records (to_csv l) = Ok (map reread l).
Proof.
  unfold read_csv_records, to_csv. rewrite map_map. reflexivity.
Qed.

(** A new session over the file left by a run of appends, started from a
    machine without log file, loads each entry as the file gives it back. *)
Lemma reload_after_appends (calls : list Append) (c : Append) (w : World) :
  session_log w = None ->
  storage_ok c = true ->
  session_log (snd (load_existing_log (new_session (appends (calls ++ [c]) w))))
  = Some (map reread (map entry_of (calls ++ [c]))).
Proof.
  intros Hw Hok. unfold load_existing_log.
  cbn [new_session log_file session_log].
  rewrite appends_file by exact Hok.
  rewrite read_csv_records_to_csv.
  unfold session_entries. rewrite Hw.
  reflexivity.
Qed.

(** An entry logged with empty notes does not come back as it was. *)
Lemma reread_empty_notes (e : Entry) :
  notes e = VStr "" -> reread e <> e.
Proof.
  intros Hn E. apply (f_equal (@notes)) in E.
  unfold reread in E. cbn [notes] in E. rewrite Hn in E. discriminate E.
Qed.

Lemma map_fixed {A : Type} (f : A -> A) (l : list A) :
  map f l = l -> forall x, In x l -> f x = x.
Proof.
  induction l as [|y l IH]; simpl; intros E x Hx; [contradiction|].
  injection E as Ey El. destruct Hx as [<-|Hx]; auto.
Qed.

(** From a machine without log file, no run of appends that ends on a
    successful write of an entry logged without notes, as every entry logged
    by [main] is, comes back unchanged in a new session. *)
Lemma reload_differs (calls : list Append) (c : Append) (w : World) :
  session_log w = None ->
  storage_ok c = true ->
  a_notes c = None ->
  session_log
    (snd (load_existing_log (new_session (appends (calls ++ [c]) w)))) <>
  session_log (appends (calls ++ [c]) w).
Proof.
  intros Hw Hok Hnotes.
  rewrite reload_after_appends by assumption.
  assert (Hlog : session_log (appends (calls ++ [c]) w) =
                 Some (map entry_of (calls ++ [c]))).
  { destruct (calls ++ [c]) as [|c0 rest] eqn:E.
    - destruct calls; discriminate E.
    - rewrite appends_session_log. unfold session_entries. now rewrite Hw. }
  rewrite Hlog. intros E. injection E as E.
  assert (Hc : In (entry_of c) (map entry_of (calls ++ [c])))
    by (apply in_map, in_or_app; right; now left).
  assert (He : notes (entry_of c) = VStr "")
    by (unfold entry_of, make_entry; cbn [notes]; now rewrite Hnotes).
  apply (@reread_empty_notes (entry_of c) He).
  now apply (@map_fixed Entry reread (map entry_of (calls ++ [c]))).
Qed.



(** A timestamp is never one of the texts read as missing: it is longer. *)
Lemma isoformat_is_read_back (t : datetime) :
  read_csv_cell (isoformat_seconds t) = VStr (isoformat_seconds t).
Proof.
  unfold read_csv_cell.
  assert (Hlen : String.length (isoformat_seconds t) = 19%nat) by reflexivity.
  assert (Hna : forallb (fun v => negb (String.length v =? 19)%nat)
                  STR_NA_VALUES = true) by reflexivity.
  rewrite forallb_forall in Hna.
  destruct (existsb (String.eqb (isoformat_seconds t)) STR_NA_VALUES) eqn:E;
    [|reflexivity].
  apply existsb_exists in E. destruct E as (v & Hv & Heq).
  apply String.eqb_eq in Heq. subst v.
  specialize (Hna _ Hv). rewrite Hlen in Hna. discriminate Hna.
Qed.

(** Of an entry logged by one of the two buttons, the file gives back the
    timestamp, the status and the location, and loses the notes. *)
Lemma reread_button_entry (t : datetime) (text : string)
    (name : option string) :
  In text ["CALL_PLACED"; "RESOLVED"]%string ->
  (forall n, name = Some n -> In n location_names) ->
  reread (make_entry (isoformat_seconds t) text (or_GPS name) "") =
  {| timestamp := VStr (isoformat_seconds t);
     status := VStr text;
     location := VStr (or_GPS name);
     notes := VNaN |}.
Proof.
  intros Htext Hname. unfold reread, make_entry.
  cbn [timestamp status location notes to_csv_cell].
  rewrite isoformat_is_read_back.
  assert (Hloc : In (or_GPS name) ["Admin Block"; "Hostel"; "GPS"]%string).
  { destruct name as [n|]; [|simpl; auto].
    destruct (Hname n eq_refl) as [<-|[<-|[]]]; simpl; auto. }
  f_equal.
  - destruct Htext as [<-|[<-|[]]]; reflexivity.
  - destruct Hloc as [<-|[<-|[<-|[]]]]; reflexivity.
Qed.

(** Without its own initialisation the append would fail on a session that
    has no log yet. *)
Lemma log_append_needs_log (entry : Entry) (w : World) :
  session_log w = None -> log_append entry w = (Raise AttributeError, w).
Proof. intros Hw. unfold log_append, bind, get_log. now rewrite Hw. Qed.

(** A button whose append fails is cut short: the error leaves the handler
    and the success message is not shown. *)
Lemma button_run (status text : string) (name : option string) (w : World) :
  (log_event status (or_GPS name) None ;; show (Success text))%M w =
  if log_file_writable w
  then (Ok tt,
        with_shown (shown w ++ [Success text])
          (snd (log_event status (or_GPS name) None w)))
  else (Raise OSError, snd (log_event status (or_GPS name) None w)).
Proof.
  unfold bind. rewrite log_event_run. cbv zeta.
  destruct (log_file_writable w); reflexivity.
Qed.

(** C4, as stated, fails: a status that is neither [CALL_PLACED] nor
    [RESOLVED] is logged like any other and nothing is raised. *)
Lemma unknown_status_counterexample :
  fst (log_event "ARSON" "Admin Block" None first_run) = Ok tt /\
  session_log (snd (log_event "ARSON" "Admin Block" None first_run)) =
    Some [make_entry "2026-11-03T09:30:00" "ARSON" "Admin Block" ""].
Proof. split; reflexivity. Qed.

(** C4, amended.  The log append does not look at the status: for every
    status text, recognised or not, it appends an entry that carries the
    text as it is, returns normally exactly when the log file can be written,
    and otherwise raises the error of the write; it never signals
    [InvalidStatusError]. *)
Theorem log_event_takes_any_status
    (status location : string) (notes : option string) (w : World) :
  session_log (snd (log_event status location notes w)) =
    Some (session_entries w ++
          [make_entry (isoformat_seconds (clock w)) status location
             (or_default notes ""%string)]) /\
  (fst (log_event status location notes w) = Ok tt <->
   log_file_writable w = true) /\
  (fst (log_event status location notes w) = Raise OSError <->
   log_file_writable w = false) /\
  fst (log_event status location notes w) <> Raise InvalidStatusError.
Proof.
  rewrite log_event_session, log_event_result.
  destruct (log_file_writable w); repeat split; congruence.
Qed.

(** C5, as stated, fails: two clicks within one second give two entries
    with the same timestamp, and a clock set back between the clicks gives
    timestamps that decrease. *)
Lemma same_second_counterexample :
  (exists e1 e2,
     session_log (appends [call_placed_at half_past_nine true;
                           resolved_at same_second_later true] first_run) =
       Some [e1; e2] /\
     half_past_nine <> same_second_later /\
     timestamp e1 = timestamp e2) /\
  (exists ts1 ts2,
     map (@timestamp)
       (session_entries (appends [call_placed_at half_past_nine true;
                                  resolved_at half_past_eight true] first_run)) =
       [VStr ts1; VStr ts2] /\
     String.leb ts1 ts2 = false).
Proof.
  split.
  - do 2 eexists. split; [reflexivity|]. split; [discriminate|reflexivity].
  - do 2 eexists. split; reflexivity.
Qed.

(** C5, amended.  In a session whose log is empty, appending [CALL_PLACED]
    at the Admin Block and then [RESOLVED] at the Admin Block leaves a log
    of exactly two entries, both at the Admin Block, with the statuses in
    that order and empty notes.  Each timestamp is the clock reading of its
    call at second precision: the two are equal exactly when both calls fall
    within the same second, and they are in non-decreasing order whenever
    the second reading is not earlier than the first. *)
Theorem call_then_resolved (w : World) (t1 t2 : datetime) (b1 b2 : bool) :
  session_entries w = [] ->
  valid_datetime t1 ->
  valid_datetime t2 ->
  session_log (appends [call_placed_at t1 b1; resolved_at t2 b2] w) =
    Some [make_entry (isoformat_seconds t1) "CALL_PLACED" "Admin Block" "";
          make_entry (isoformat_seconds t2) "RESOLVED" "Admin Block" ""] /\
  (isoformat_seconds t1 = isoformat_seconds t2 <->
   to_second t1 = to_second t2) /\
  (not_later t1 t2 ->
   String.leb (isoformat_seconds t1) (isoformat_seconds t2) = true).
Proof.
  intros Hw V1 V2. split; [|split].
  - rewrite appends_session_log, Hw. reflexivity.
  - now apply isoformat_eq.
  - now apply isoformat_leb.
Qed.

(** C5, amended, for a call logged at half past eight and resolved at half
    past nine, the second write failing. *)
Lemma call_then_resolved_witness :
  session_log (appends [call_placed_at half_past_eight true;
                        resolved_at half_past_nine false] first_run) =
    Some [make_entry (isoformat_seconds half_past_eight)
            "CALL_PLACED" "Admin Block" "";
          make_entry (isoformat_seconds half_past_nine)
            "RESOLVED" "Admin Block" ""] /\
  (isoformat_seconds half_past_eight = isoformat_seconds half_past_nine <->
   to_second half_past_eight = to_second half_past_nine) /\
  (not_later half_past_eight half_past_nine ->
   String.leb (isoformat_seconds half_past_eight)
     (isoformat_seconds half_past_nine) = true).
Proof.
  apply (@call_then_resolved first_run half_past_eight half_past_nine
           true false).
  - reflexivity.
  - unfold valid_datetime, half_past_eight; simpl; lia.
  - unfold valid_datetime, half_past_nine; simpl; lia.
Defined.

(** C6, as stated, fails: when the log file cannot be written the button
    does not carry on with a warning; the error of the write leaves the
    handler and nothing is shown. *)
Lemma write_failure_counterexample :
  fst (dial_and_log_call (Some "Admin Block"%string) read_only_run) =
    Raise OSError /\
  shown (snd (dial_and_log_call (Some "Admin Block"%string) read_only_run)) =
    [].
Proof. split; reflexivity. Qed.

(** C6, amended.  If the write of the log file fails during an append, the
    session's sequence already holds the new entry after the entries it had;
    the error of the write leaves [log_event] and the button that called it,
    which shows neither its success message nor a warning; and the next
    append whose write succeeds writes the whole sequence, the entry of the
    failed write included, so that the file catches up. *)
Theorem write_failure_keeps_entry
    (status location : string) (notes name : option string)
    (w : World) (next : Append) :
  log_file_writable w = false ->
  storage_ok next = true ->
  fst (log_event status location notes w) = Raise OSError /\
  session_log (snd (log_event status location notes w)) =
    Some (session_entries w ++
          [make_entry (isoformat_seconds (clock w)) status location
             (or_default notes ""%string)]) /\
  (fst (dial_and_log_call name w) = Raise OSError /\
   shown (snd (dial_and_log_call name w)) = shown w) /\
  (fst (mark_resolved name w) = Raise OSError /\
   shown (snd (mark_resolved name w)) = shown w) /\
  session_log (appends [next] (snd (log_event status location notes w))) =
    Some (session_entries w ++
          [make_entry (isoformat_seconds (clock w)) status location
             (or_default notes ""%string);
           entry_of next]) /\
  log_file (appends [next] (snd (log_event status location notes w))) =
    Some (to_csv
            (session_entries w ++
             [make_entry (isoformat_seconds (clock w)) status location
                (or_default notes ""%string);
              entry_of next])).
Proof.
  intros Hw Hnext.
  assert (Hafter :
            session_entries (snd (log_event status location notes w)) =
            session_entries w ++
            [make_entry (isoformat_seconds (clock w)) status location
               (or_default notes ""%string)]).
  { unfold session_entries at 1. now rewrite log_event_session. }
  split; [rewrite log_event_result, Hw; reflexivity|].
  split; [apply log_event_session|].
  split; [unfold dial_and_log_call; rewrite button_run, Hw;
          split; [reflexivity | apply log_event_shown]|].
  split; [unfold mark_resolved; rewrite button_run, Hw;
          split; [reflexivity | apply log_event_shown]|].
  split.
  - rewrite appends_session_log, Hafter, <- app_assoc. reflexivity.
  - change [next] with ([] ++ [next]).
    rewrite appends_file by exact Hnext.
    rewrite Hafter, <- app_assoc. reflexivity.
Qed.

(** C6, amended, for a call at the Hostel logged while the file cannot be
    written, followed by a resolution whose write succeeds. *)
Lemma write_failure_keeps_entry_witness :
  fst (log_event "CALL_PLACED" "Hostel" None read_only_run) = Raise OSError /\
  session_log (snd (log_event "CALL_PLACED" "Hostel" None read_only_run)) =
    Some (session_entries read_only_run ++
          [make_entry (isoformat_seconds (clock read_only_run))
             "CALL_PLACED" "Hostel" (or_default None ""%string)]) /\
  (fst (dial_and_log_call (Some "Hostel"%string) read_only_run) =
     Raise OSError /\
   shown (snd (dial_and_log_call (Some "Hostel"%string) read_only_run)) =
     shown read_only_run) /\
  (fst (mark_resolved (Some "Hostel"%string) read_only_run) = Raise OSError /\
   shown (snd (mark_resolved (Some "Hostel"%string) read_only_run)) =
     shown read_only_run) /\
  session_log
    (appends [resolved_at same_second_later true]
       (snd (log_event "CALL_PLACED" "Hostel" None read_only_run))) =
    Some (session_entries read_only_run ++
          [make_entry (isoformat_seconds (clock read_only_run))
             "CALL_PLACED" "Hostel" (or_default None ""%string);
           entry_of (resolved_at same_second_later true)]) /\
  log_file
    (appends [resolved_at same_second_later true]
       (snd (log_event "CALL_PLACED" "Hostel" None read_only_run))) =
    Some (to_csv
            (session_entries read_only_run ++
             [make_entry (isoformat_seconds (clock read_only_run))
                "CALL_PLACED" "Hostel" (or_default None ""%string);
              entry_of (resolved_at same_second_later true)])).
Proof.
  apply (@write_failure_keeps_entry "CALL_PLACED" "Hostel" None
           (Some "Hostel"%string) read_only_run
           (resolved_at same_second_later true)).
  - reflexivity.
  - reflexivity.
Defined.

(** C7.  The round trip fails on the first entry [main] can log: the entry
    is appended with empty notes, written to the file as an empty field,
    and read back in a new session with NaN for notes. *)
Theorem reload_loses_empty_notes :
  session_log (appends [call_placed_at half_past_nine true] first_run) =
    Some [make_entry "2026-11-03T09:30:00" "CALL_PLACED" "Admin Block" ""] /\
  session_log
    (snd (load_existing_log
            (new_session
               (appends [call_placed_at half_past_nine true] first_run)))) =
    Some [{| timestamp := VStr "2026-11-03T09:30:00";
             status := VStr "CALL_PLACED";
             location := VStr "Admin Block";
             notes := VNaN |}].
Proof. split; reflexivity. Qed.

(** C8, as stated, fails: an override file that has its header line and no
    station under it is well-formed, and the loader returns no station. *)
Lemma load_stations_counterexample :
  fst (load_fire_station_df (header_only first_run)) = Ok [].
Proof. reflexivity. Qed.

(** C8, amended.  The loader returns the built-in default set, which has two
    stations, when the override file does not exist; whatever rows the
    override file parses into, none included, when it exists and parses; and
    when the file exists and does not parse the error of the parser reaches
    the caller, which is not [SourceMalformedError], and the defaults are not
    used.  It changes nothing. *)
Theorem load_fire_station_df_cases (w : World) :
  match fire_stations_csv w with
  | None => fst (load_fire_station_df w) = Ok DEFAULT_FIRE_STATIONS
  | Some (Parsed rows) => fst (load_fire_station_df w) = Ok rows
  | Some Unparsable => fst (load_fire_station_df w) = Raise ParserError
  end /\
  List.length DEFAULT_FIRE_STATIONS = 2%nat /\
  fst (load_fire_station_df w) <> Raise SourceMalformedError /\
  snd (load_fire_station_df w) = w.
Proof.
  unfold load_fire_station_df.
  destruct (fire_stations_csv w) as [[rows|]|]; repeat split; discriminate.
Qed.




(** * Further properties *)

(** ** The wizard *)

(** X1.  Whatever is chosen in the two boxes of the wizard, [main] never
    enters the fire workflow: with no risk type it draws the map alone, and
    with any of the three risk types it shows the notice for unsupported
    incidents.  The option of the risk box is spelt with a non-breaking
    hyphen and the comparison with a plain one, so the box that offers
    ["Fire"] is never built. *)
Theorem fire_workflow_unreachable (disaster_type subtype : option string) :
  selectable RISK_OPTIONS disaster_type ->
  (forall d, disaster_type = Some d -> selectable (subtype_options d) subtype) ->
  wizard_flow disaster_type subtype =
    match disaster_type with
    | None => BaseMap
    | Some _ => UnsupportedNotice
    end.
Proof.
  intros Hd Hs. destruct disaster_type as [d|]; [|reflexivity].
  specialize (Hs d eq_refl). simpl in Hd.
  destruct Hd as [<-|[<-|[<-|[]]]];
    (destruct subtype as [s|]; [|reflexivity]);
    simpl in Hs;
    repeat (destruct Hs as [<-|Hs]; [reflexivity|]);
    destruct Hs.
Qed.

(** X1 for the risk type "Man-made" as the box spells it. *)
Lemma fire_workflow_unreachable_witness :
  wizard_flow (Some "Man‑made"%string) (Some "Power Failure"%string) =
    UnsupportedNotice.
Proof.
  apply (@fire_workflow_unreachable (Some "Man‑made"%string)
           (Some "Power Failure"%string)).
  - simpl. auto.
  - intros d E. injection E as <-. simpl. auto.
Defined.

(** ** Loading the log *)


(** ** The log and its file *)

(** X3.  The log of a session only grows: a run of appends leaves the
    entries the session had, in place, followed by one entry per append in
    the order of the calls, whether the writes of the file succeed or
    fail. *)
Theorem log_only_grows (calls : list Append) (w : World) :
  session_entries (appends calls w) =
    session_entries w ++ map entry_of calls /\
  List.length (session_entries (appends calls w)) =
    (List.length (session_entries w) + List.length calls)%nat /\
  firstn (List.length (session_entries w)) (session_entries (appends calls w)) =
    session_entries w.
Proof.
  rewrite appends_entries. repeat split.
  - now rewrite length_app, length_map.
  - rewrite firstn_app, Nat.sub_diag, firstn_all. simpl.
    now rewrite app_nil_r.
Qed.

(** X4.  After any run of appends that ends on a successful write, the file
    holds exactly the log of the session, entry for entry: what earlier
    failed writes left out is in it. *)
Theorem file_mirrors_log (calls : list Append) (c : Append) (w : World) :
  storage_ok c = true ->
  log_file (appends (calls ++ [c]) w) =
    Some (to_csv (session_entries (appends (calls ++ [c]) w))).
Proof.
  intros Hok. rewrite appends_file by exact Hok.
  now rewrite appends_entries.
Qed.

(** X4 for a call whose write fails, followed by a resolution whose write
    succeeds. *)
Lemma file_mirrors_log_witness :
  log_file (appends ([call_placed_at half_past_eight false] ++
                     [resolved_at half_past_nine true]) first_run) =
    Some (to_csv (session_entries
                    (appends ([call_placed_at half_past_eight false] ++
                              [resolved_at half_past_nine true]) first_run))).
Proof.
  apply (@file_mirrors_log [call_placed_at half_past_eight false]
           (resolved_at half_past_nine true) first_run).
  reflexivity.
Defined.

(** ** The buttons across runs and sessions *)

Lemma press_run (b : Button) (name : option string) (w : World) :
  press b name w =
  (log_event (button_status b) (or_GPS name) None ;;
   show (Success match b with
                 | DialButton => "Call logged – stay safe! 🚒"
                 | ResolvedButton =>
                     "Incident marked as resolved. Report saved."
                 end))%M w.
Proof. destruct b; reflexivity. Qed.

(** A press leaves the log and the file as its call of [log_event] does. *)
Lemma press_storage (b : Button) (name : option string) (w : World) :
  session_log (snd (press b name w)) =
    session_log (snd (log_event (button_status b) (or_GPS name) None w)) /\
  log_file (snd (press b name w)) =
    log_file (snd (log_event (button_status b) (or_GPS name) None w)).
Proof.
  rewrite press_run, button_run.
  destruct (log_file_writable w); split; reflexivity.
Qed.

Lemma click_step (c : Click) (w : World) :
  session_log
    (snd (press (pressed c) (chosen c)
            (outside (pressed_at c) (writable_then c) w))) =
  Some (session_entries w ++ [click_entry c]).
Proof.
  rewrite (proj1 (press_storage _ _ _)). now rewrite log_event_session.
Qed.

Lemma clicks_from_log (cs : list Click) :
  forall w l,
    session_log w = Some l ->
    session_log (clicks cs w) = Some (l ++ map click_entry cs).
Proof.
  induction cs as [|c rest IH]; intros w l Hw; simpl.
  - now rewrite app_nil_r.
  - rewrite (IH _ _ (click_step c w)).
    unfold session_entries. rewrite Hw. now rewrite <- app_assoc.
Qed.

Lemma clicks_entries (cs : list Click) (w : World) :
  session_entries (clicks cs w) = session_entries w ++ map click_entry cs.
Proof.
  destruct cs as [|c rest]; simpl; [now rewrite app_nil_r|].
  unfold session_entries at 1.
  rewrite (clicks_from_log rest _ (click_step c w)).
  now rewrite <- app_assoc.
Qed.

Lemma clicks_snoc (cs : list Click) (c : Click) :
  forall w,
    clicks (cs ++ [c]) w =
    snd (press (pressed c) (chosen c)
           (outside (pressed_at c) (writable_then c) (clicks cs w))).
Proof.
  induction cs as [|c' rest IH]; intros w; simpl; [reflexivity|]. apply IH.
Qed.

Lemma clicks_file (cs : list Click) (c : Click) (w : World) :
  writable_then c = true ->
  log_file (clicks (cs ++ [c]) w) =
  Some (to_csv (session_entries w ++ map click_entry (cs ++ [c]))).
Proof.
  intros Hok. rewrite clicks_snoc.
  rewrite (proj2 (press_storage _ _ _)), log_event_file.
  cbn [outside log_file_writable clock]. rewrite Hok.
  unfold session_entries at 1. cbn [outside session_log].
  fold (session_entries (clicks cs w)).
  rewrite clicks_entries, map_app, app_assoc. reflexivity.
Qed.

Lemma or_GPS_not_empty (name : option string) : or_GPS name <> ""%string.
Proof.
  destruct name as [s|]; simpl; [|discriminate].
  destruct (String.eqb s "") eqn:E; [discriminate|].
  now apply String.eqb_neq.
Qed.

Lemma click_entry_ok (c : Click) : button_entry (click_entry c).
Proof.
  exists (isoformat_seconds (pressed_at c)), (or_GPS (chosen c)).
  split; [reflexivity|]. split; [reflexivity|]. split.
  - unfold click_entry, make_entry. cbn [status].
    destruct (pressed c); [left | right]; reflexivity.
  - split; [reflexivity|]. split; [apply or_GPS_not_empty | now left].
Qed.

(** X5.  Whatever is pressed and chosen, and whether the writes succeed or
    not, the two buttons keep the log well formed: if every entry of the
    session has a 19-character timestamp, the status [CALL_PLACED] or
    [RESOLVED], a location that is not empty and notes that are empty or
    missing, so has every entry after the presses. *)
Theorem buttons_keep_log_well_formed (cs : list Click) (w : World) :
  Forall button_entry (session_entries w) ->
  Forall button_entry (session_entries (clicks cs w)).
Proof.
  intros Hw. rewrite clicks_entries. apply Forall_app. split; [exact Hw|].
  apply Forall_forall. intros e He. apply in_map_iff in He.
  destruct He as (c & <- & _). apply click_entry_ok.
Qed.

(** X5 from an empty session, for a call logged with nothing chosen and the
    file not writable. *)
Lemma buttons_keep_log_well_formed_witness :
  Forall button_entry
    (session_entries
       (clicks [ {| pressed := DialButton; chosen := None;
                    pressed_at := half_past_nine;
                    writable_then := false |} ] first_run)).
Proof.
  apply (@buttons_keep_log_well_formed
           [ {| pressed := DialButton; chosen := None;
                pressed_at := half_past_nine;
                writable_then := false |} ] first_run).
  constructor.
Defined.

Lemma reread_click (c : Click) :
  selectable location_names (chosen c) ->
  reread (click_entry c) = without_notes (click_entry c).
Proof.
  intros Hsel. unfold click_entry. rewrite reread_button_entry.
  - reflexivity.
  - destruct (pressed c); simpl; auto.
  - intros n Hn. rewrite Hn in Hsel. exact Hsel.
Qed.

Lemma reread_clicks (cs : list Click) :
  Forall (fun c => selectable location_names (chosen c)) cs ->
  map reread (map click_entry cs) = map without_notes (map click_entry cs).
Proof.
  intros Hsel. rewrite !map_map. apply map_ext_in. intros c Hc.
  rewrite Forall_forall in Hsel. now apply reread_click, Hsel.
Qed.

(** In the file, missing notes and empty notes are the same empty field. *)
Lemma to_csv_without_notes (cs : list Click) :
  to_csv (map without_notes (map click_entry cs)) =
  to_csv (map click_entry cs).
Proof.
  unfold to_csv. f_equal. rewrite !map_map. apply map_ext. reflexivity.
Qed.

Lemma reload_after_clicks (cs : list Click) (c : Click) (w : World) :
  session_log w = None ->
  writable_then c = true ->
  Forall (fun c => selectable location_names (chosen c)) (cs ++ [c]) ->
  session_log (snd (load_existing_log (new_session (clicks (cs ++ [c]) w))))
  = Some (map without_notes (map click_entry (cs ++ [c]))).
Proof.
  intros Hw Hok Hsel. unfold load_existing_log.
  cbn [new_session log_file session_log].
  rewrite clicks_file by exact Hok.
  rewrite read_csv_records_to_csv.
  unfold session_entries. rewrite Hw.
  cbn [app set_log snd with_session_log session_log].
  now rewrite reread_clicks.
Qed.

(** X6.  What a new session gets back from the file.  After presses of the
    two buttons in a session started without log, the last write having
    succeeded, a new session loads as many entries as were logged, in the
    same order, each with the timestamp, status and location it was logged
    with, and with its notes missing. *)
Theorem reload_gives_back_all_but_notes
    (cs : list Click) (c : Click) (w : World) :
  session_log w = None ->
  writable_then c = true ->
  Forall (fun c => selectable location_names (chosen c)) (cs ++ [c]) ->
  session_log (snd (load_existing_log (new_session (clicks (cs ++ [c]) w))))
  = Some (map without_notes (map click_entry (cs ++ [c]))) /\
  List.length
    (session_entries
       (snd (load_existing_log (new_session (clicks (cs ++ [c]) w))))) =
  List.length (cs ++ [c]) /\
  Forall button_entry
    (session_entries
       (snd (load_existing_log (new_session (clicks (cs ++ [c]) w))))).
Proof.
  intros Hw Hok Hsel.
  pose proof (@reload_after_clicks cs c w Hw Hok Hsel) as Hload.
  split; [exact Hload|].
  unfold session_entries. rewrite Hload. split.
  - now rewrite !length_map.
  - apply Forall_forall. intros e He.
    apply in_map_iff in He. destruct He as (e' & <- & He').
    apply in_map_iff in He'. destruct He' as (c' & <- & _).
    destruct (click_entry_ok c') as (ts & loc & Hts & Hlen & Hst & Hloc & Hne & _).
    exists ts, loc. cbn [without_notes timestamp status location notes].
    repeat split; auto.
Qed.

(** X6 for a call at the Hostel and its resolution. *)
Lemma reload_gives_back_all_but_notes_witness :
  session_log
    (snd (load_existing_log
            (new_session (clicks ([hostel_call] ++ [hostel_resolved])
                            first_run))))
  = Some (map without_notes
            (map click_entry ([hostel_call] ++ [hostel_resolved]))) /\
  List.length
    (session_entries
       (snd (load_existing_log
               (new_session (clicks ([hostel_call] ++ [hostel_resolved])
                               first_run))))) =
  List.length ([hostel_call] ++ [hostel_resolved]) /\
  Forall button_entry
    (session_entries
       (snd (load_existing_log
               (new_session (clicks ([hostel_call] ++ [hostel_resolved])
                               first_run))))).
Proof.
  apply (@reload_gives_back_all_but_notes [hostel_call] hostel_resolved
           first_run).
  - reflexivity.
  - reflexivity.
  - constructor; [simpl; auto|]. constructor; [simpl; auto|]. constructor.
Defined.

(** X7.  The file accumulates across sessions.  When a second session
    loads the log that the presses of a first session left and then logs
    presses of its own, the last write of each session having succeeded,
    the file ends up holding the entries of both sessions, the earlier
    first, each row as it was first written; in the session itself the
    loaded entries are followed by the new ones. *)
Theorem file_accumulates_across_sessions
    (cs1 : list Click) (c1 : Click) (cs2 : list Click) (c2 : Click)
    (w : World) :
  session_log w = None ->
  writable_then c1 = true ->
  writable_then c2 = true ->
  Forall (fun c => selectable location_names (chosen c)) (cs1 ++ [c1]) ->
  log_file
    (clicks (cs2 ++ [c2])
       (snd (load_existing_log (new_session (clicks (cs1 ++ [c1]) w))))) =
    Some (to_csv (map click_entry ((cs1 ++ [c1]) ++ (cs2 ++ [c2])))) /\
  session_entries
    (clicks (cs2 ++ [c2])
       (snd (load_existing_log (new_session (clicks (cs1 ++ [c1]) w))))) =
    map without_notes (map click_entry (cs1 ++ [c1])) ++
    map click_entry (cs2 ++ [c2]).
Proof.
  intros Hw H1 H2 Hsel.
  pose proof (@reload_after_clicks cs1 c1 w Hw H1 Hsel) as Hload.
  assert (Hentries :
            session_entries
              (snd (load_existing_log
                      (new_session (clicks (cs1 ++ [c1]) w)))) =
            map without_notes (map click_entry (cs1 ++ [c1])))
    by (unfold session_entries; now rewrite Hload).
  split.
  - rewrite clicks_file by exact H2. rewrite Hentries.
    f_equal. unfold to_csv. f_equal.
    generalize (cs1 ++ [c1]) (cs2 ++ [c2]). intros A B.
    rewrite !map_app. f_equal.
    rewrite !map_map. apply map_ext. reflexivity.
  - now rewrite clicks_entries, Hentries.
Qed.

(** X7 for a call at the Hostel in one session and its resolution in the
    next. *)
Lemma file_accumulates_across_sessions_witness :
  log_file
    (clicks ([] ++ [hostel_resolved])
       (snd (load_existing_log
               (new_session (clicks ([] ++ [hostel_call]) first_run))))) =
    Some (to_csv (map click_entry
                    (([] ++ [hostel_call]) ++ ([] ++ [hostel_resolved])))) /\
  session_entries
    (clicks ([] ++ [hostel_resolved])
       (snd (load_existing_log
               (new_session (clicks ([] ++ [hostel_call]) first_run))))) =
    map without_notes (map click_entry ([] ++ [hostel_call])) ++
    map click_entry ([] ++ [hostel_resolved]).
Proof.
  apply (@file_accumulates_across_sessions [] hostel_call [] hostel_resolved
           first_run).
  - reflexivity.
  - reflexivity.
  - reflexivity.
  - constructor; [simpl; auto|]. constructor.
Defined.

(** ** Rounding and the nearest station *)

Lemma inject_Z_succ (f : Z) : (inject_Z (f + 1) == inject_Z f + 1)%Q.
Proof. rewrite inject_Z_plus. reflexivity. Qed.

Lemma floor_bounds (x : Q) :
  (inject_Z (Qfloor x) <= x /\ x < inject_Z (Qfloor x) + 1)%Q.
Proof.
  split; [apply Qfloor_le|].
  rewrite <- inject_Z_succ. apply Qlt_floor.
Qed.

(** Rounding to the nearest integer moves a value by at most one half. *)
Lemma round_half_even_close (x : Q) :
  (inject_Z (round_half_even x) - (1 # 2) <= x /\
   x <= inject_Z (round_half_even x) + (1 # 2))%Q.
Proof.
  unfold round_half_even. destruct (floor_bounds x) as [Hlo Hhi].
  destruct (Qcompare_spec (x - inject_Z (Qfloor x)) (1 # 2)) as [E|L|G].
  - destruct (Z.even (Qfloor x)); [|rewrite inject_Z_succ]; split; lra.
  - split; lra.
  - rewrite inject_Z_succ. split; lra.
Qed.

Lemma round_half_even_cases (x : Q) :
  round_half_even x = Qfloor x \/ round_half_even x = (Qfloor x + 1)%Z.
Proof.
  unfold round_half_even.
  destruct ((x - inject_Z (Qfloor x)) ?= (1 # 2))%Q; auto.
  destruct (Z.even (Qfloor x)); auto.
Qed.

Lemma round_half_even_monotone (x y : Q) :
  (x <= y)%Q -> (round_half_even x <= round_half_even y)%Z.
Proof.
  intros Hxy. pose proof (Qfloor_resp_le _ _ Hxy) as Hf.
  destruct (Z.eq_dec (Qfloor x) (Qfloor y)) as [E|N].
  - unfold round_half_even. rewrite <- E.
    destruct (Qcompare_spec (x - inject_Z (Qfloor x)) (1 # 2)) as [Ex|Lx|Gx];
      destruct (Qcompare_spec (y - inject_Z (Qfloor x)) (1 # 2))
        as [Ey|Ly|Gy];
      destruct (Z.even (Qfloor x)); try lia; exfalso; lra.
  - destruct (round_half_even_cases x) as [-> | ->];
      destruct (round_half_even_cases y) as [-> | ->]; lia.
Qed.

Lemma hundredths (n : Z) : (n # 100 == inject_Z n * (1 # 100))%Q.
Proof. unfold Qeq, inject_Z, Qmult. simpl. lia. Qed.

Lemma round2_close (x : Q) :
  (x - (1 # 200) <= round2 x /\ round2 x <= x + (1 # 200))%Q.
Proof.
  unfold round2. rewrite hundredths.
  destruct (round_half_even_close (x * (100 # 1))) as [Hlo Hhi].
  split; lra.
Qed.

Lemma round2_monotone (x y : Q) : (x <= y)%Q -> (round2 x <= round2 y)%Q.
Proof.
  intros Hxy. unfold round2.
  assert (H : (round_half_even (x * (100 # 1)) <=
               round_half_even (y * (100 # 1)))%Z)
    by (apply round_half_even_monotone; lra).
  unfold Qle. simpl. lia.
Qed.

(** X8.  [haversine_km] returns the geodesic distance rounded to two
    decimals when geopy accepts the latitudes of both points, and raises
    its [ValueError] otherwise.  The rounding moves a distance by at most
    0.005 km, never reverses the order of two distances, and leaves a
    distance that is not negative not negative. *)
Theorem haversine_km_rounding
    (geodesic_km : Coordinate -> Coordinate -> Q) (p q r : Coordinate) :
  haversine_km geodesic_km p q =
    (if valid_point p && valid_point q
     then Ok (round2 (geodesic_km p q))
     else Raise ValueError) /\
  (geodesic_km p q - (1 # 200) <= round2 (geodesic_km p q) /\
   round2 (geodesic_km p q) <= geodesic_km p q + (1 # 200))%Q /\
  ((geodesic_km p q <= geodesic_km p r)%Q ->
   (round2 (geodesic_km p q) <= round2 (geodesic_km p r))%Q) /\
  ((0 <= geodesic_km p q)%Q -> (0 <= round2 (geodesic_km p q))%Q).
Proof.
  split; [|split; [apply round2_close|split]].
  - unfold haversine_km, geodesic.
    now destruct (valid_point p && valid_point q).
  - apply round2_monotone.
  - intros H. apply Qle_trans with (round2 0); [discriminate|].
    now apply round2_monotone.
Qed.

(** X9.  On a frame with rows and latitudes that geopy accepts, the station
    the resolver returns is, by geodesic distance, within 0.01 km of the
    nearest station of the sequence: sorting by the rounded distance costs
    at most one hundredth of a kilometre. *)
Theorem nearest_within_a_hundredth
    (geodesic_km : Coordinate -> Coordinate -> Q)
    (sort_values : list StationRow -> list StationRow)
    (lat lon : Q) (S : list Station) :
  sort_contract sort_values ->
  valid_latitude lat = true ->
  valid_stations S = true ->
  S <> [] ->
  exists row,
    nearest_fire_station geodesic_km sort_values lat lon S = Ok row /\
    In (station row) S /\
    forall s, In s S ->
      (geodesic_km (lat, lon) (latitude (station row), longitude (station row))
       <= geodesic_km (lat, lon) (latitude s, longitude s) + (1 # 100))%Q.
Proof.
  intros Hsort Hlat Hrows HS.
  destruct (@nearest_is_least geodesic_km sort_values Hsort lat lon S
              Hlat Hrows HS)
    as (row & Hrow & Hin & Hd & Hleast).
  exists row. split; [exact Hrow|]. split; [exact Hin|].
  intros s Hs. specialize (Hleast s Hs). rewrite Hd in Hleast.
  pose proof (round2_close
                (geodesic_km (lat, lon)
                   (latitude (station row), longitude (station row)))) as [H1 _].
  pose proof (round2_close
                (geodesic_km (lat, lon) (latitude s, longitude s))) as [_ H2].
  lra.
Qed.

(** X9 at the Admin Block and the two default stations. *)
Lemma nearest_within_a_hundredth_witness :
  exists row,
    nearest_fire_station taxicab_km sort_ties_in_order
      (129079 # 10000) (774332 # 10000) DEFAULT_FIRE_STATIONS = Ok row /\
    In (station row) DEFAULT_FIRE_STATIONS /\
    forall s, In s DEFAULT_FIRE_STATIONS ->
      (taxicab_km (129079 # 10000, 774332 # 10000)
         (latitude (station row), longitude (station row))
       <= taxicab_km (129079 # 10000, 774332 # 10000)
            (latitude s, longitude s) + (1 # 100))%Q.
Proof.
  apply (@nearest_within_a_hundredth taxicab_km sort_ties_in_order
           (129079 # 10000) (774332 # 10000) DEFAULT_FIRE_STATIONS).
  - exact sort_ties_in_order_contract.
  - reflexivity.
  - reflexivity.
  - discriminate.
Defined.

(** ** The resolution of [main] *)

(** The ETA of a row, with the row, or the error of the ETA. *)
Lemma nearest_and_eta_run
    (geodesic_km : Coordinate -> Coordinate -> Q)
    (sort_values : list StationRow -> list StationRow)
    (lat lon : Q) (w : World) :
  nearest_and_eta geodesic_km sort_values lat lon w =
  match fst (load_fire_station_df w) with
  | Raise e => (Raise e, w)
  | Ok stations_df =>
      match nearest_fire_station geodesic_km sort_values lat lon stations_df
      with
      | Raise e => (Raise e, w)
      | Ok row =>
          (match eta_min (distance_km row) with
           | Ok eta => Ok (row, eta)
           | Raise e => Raise e
           end, w)
      end
  end.
Proof.
  unfold nearest_and_eta, bind, load_fire_station_df, lift, ret.
  destruct (fire_stations_csv w) as [[rows|]|]; cbn [fst];
    try reflexivity;
    match goal with
    | |- context [nearest_fire_station ?g ?s ?a ?b ?S] =>
        destruct (nearest_fire_station g s a b S) as [row|e];
          [destruct (eta_min (distance_km row))|]; reflexivity
    end.
Qed.

(** A rounded distance is a number of hundredths, not negative when the
    distance is not. *)
Lemma round2_hundredths (x : Q) :
  (0 <= x)%Q ->
  exists n, round2 x = n # 100 /\ (0 <= n)%Z.
Proof.
  intros Hx. exists (round_half_even (x * (100 # 1))). split; [reflexivity|].
  change 0%Z with (round_half_even 0).
  apply round_half_even_monotone. lra.
Qed.

Lemma below_82 (n : Z) : (n # 100 < 82 # 1)%Q -> (n < 8200)%Z.
Proof. unfold Qlt. cbn [Qnum Qden]. lia. Qed.

(** X10.  When the station source gives at least one station and the
    latitudes are ones geopy accepts, the resolution of [main] changes
    nothing and finds a station of the source that no station of the source
    beats in rounded distance.  Its ETA is computed from that distance: the
    distances being non-negative it is not negative, unless the computation
    overflows; and when the station is less than 82 km away the resolution
    succeeds with the whole number of minutes of the trip at 40 km/h,
    rounded down. *)
Theorem resolution_on_valid_source
    (geodesic_km : Coordinate -> Coordinate -> Q)
    (sort_values : list StationRow -> list StationRow)
    (lat lon : Q) (w : World) (S : list Station) :
  sort_contract sort_values ->
  (forall p q, (0 <= geodesic_km p q)%Q) ->
  fst (load_fire_station_df w) = Ok S ->
  S <> [] ->
  valid_latitude lat = true ->
  valid_stations S = true ->
  exists row,
    nearest_fire_station geodesic_km sort_values lat lon S = Ok row /\
    In (station row) S /\
    distance_km row =
      round2 (geodesic_km (lat, lon)
                (latitude (station row), longitude (station row))) /\
    (forall s, In s S ->
       (distance_km row <=
        round2 (geodesic_km (lat, lon) (latitude s, longitude s)))%Q) /\
    nearest_and_eta geodesic_km sort_values lat lon w =
      (match eta_min (distance_km row) with
       | Ok eta => Ok (row, eta)
       | Raise e => Raise e
       end, w) /\
    (eta_min (distance_km row) = Raise OverflowError \/
     exists eta, eta_min (distance_km row) = Ok eta /\ (0 <= eta)%Z) /\
    ((distance_km row < 82 # 1)%Q ->
     exists eta,
       nearest_and_eta geodesic_km sort_values lat lon w =
         (Ok (row, eta), w) /\
       (0 <= eta)%Z /\
       (inject_Z eta <= distance_km row * (3 # 2) < inject_Z eta + 1)%Q).
Proof.
  intros Hsort Hpos Hload HS Hlat Hrows.
  destruct (@nearest_is_least geodesic_km sort_values Hsort lat lon S
              Hlat Hrows HS)
    as (row & Hrow & Hin & Hd & Hleast).
  exists row. split; [exact Hrow|]. split; [exact Hin|].
  split; [exact Hd|]. split; [exact Hleast|].
  assert (Hrun : nearest_and_eta geodesic_km sort_values lat lon w =
                 (match eta_min (distance_km row) with
                  | Ok eta => Ok (row, eta)
                  | Raise e => Raise e
                  end, w))
    by (rewrite nearest_and_eta_run, Hload, Hrow; reflexivity).
  split; [exact Hrun|].
  destruct (round2_hundredths
              (Hpos (lat, lon)
                 (latitude (station row), longitude (station row))))
    as (n & Hn & Hn0).
  rewrite <- Hd in Hn. rewrite Hrun, Hn. clear Hrun. split.
  - now apply eta_min_nonneg.
  - intros Hlt. apply below_82 in Hlt.
    assert (Hb : (0 <= n < 8200)%Z) by lia.
    exists (Qfloor ((n # 100) * (3 # 2))).
    rewrite (eta_min_exact Hb). split; [reflexivity|]. split.
    + change 0%Z with (Qfloor (0 # 1)). apply Qfloor_resp_le.
      unfold Qle. cbn [Qnum Qden Qmult]. lia.
    + apply floor_bounds.
Qed.

(** X10 at the Admin Block on a machine without override file. *)
Lemma resolution_on_valid_source_witness :
  exists row,
    nearest_fire_station taxicab_km sort_ties_in_order
      (129079 # 10000) (774332 # 10000) DEFAULT_FIRE_STATIONS = Ok row /\
    In (station row) DEFAULT_FIRE_STATIONS /\
    distance_km row =
      round2 (taxicab_km (129079 # 10000, 774332 # 10000)
                (latitude (station row), longitude (station row))) /\
    (forall s, In s DEFAULT_FIRE_STATIONS ->
       (distance_km row <=
        round2 (taxicab_km (129079 # 10000, 774332 # 10000)
                  (latitude s, longitude s)))%Q) /\
    nearest_and_eta taxicab_km sort_ties_in_order
      (129079 # 10000) (774332 # 10000) first_run =
      (match eta_min (distance_km row) with
       | Ok eta => Ok (row, eta)
       | Raise e => Raise e
       end, first_run) /\
    (eta_min (distance_km row) = Raise OverflowError \/
     exists eta, eta_min (distance_km row) = Ok eta /\ (0 <= eta)%Z) /\
    ((distance_km row < 82 # 1)%Q ->
     exists eta,
       nearest_and_eta taxicab_km sort_ties_in_order
         (129079 # 10000) (774332 # 10000) first_run =
         (Ok (row, eta), first_run) /\
       (0 <= eta)%Z /\
       (inject_Z eta <= distance_km row * (3 # 2) < inject_Z eta + 1)%Q).
Proof.
  apply (@resolution_on_valid_source taxicab_km sort_ties_in_order
           (129079 # 10000) (774332 # 10000) first_run
           DEFAULT_FIRE_STATIONS).
  - exact sort_ties_in_order_contract.
  - intros [a b] [c d]. unfold taxicab_km. cbn [fst snd].
    assert (Habs : forall x : Q, (0 <= (if Qle_bool 0 x then x else - x))%Q).
    { intros x. destruct (Qle_bool 0 x) eqn:E.
      - now apply Qle_bool_iff.
      - destruct (Qlt_le_dec x 0) as [Hlt|Hle]; [lra|].
        apply Qle_bool_iff in Hle. congruence. }
    pose proof (Habs (a - c)%Q). pose proof (Habs (b - d)%Q). lra.
  - reflexivity.
  - discriminate.
  - reflexivity.
  - reflexivity.
Defined.

(** X11.  The outcomes of the resolution of [main], which in every case
    leaves the session and the files as they were.  It fails with the error
    of the parser when the override file cannot be parsed, and with the
    [ValueError] of the resolver when the file holds no station or when a
    latitude, of the point or of a station of the file, is one geopy
    refuses; it never falls back on the default stations when the file
    exists.  Otherwise it finds a station of the source in use, the file or
    else the defaults, and returns it with its ETA, or fails with the error
    of the ETA. *)
Theorem resolution_outcomes
    (geodesic_km : Coordinate -> Coordinate -> Q)
    (sort_values : list StationRow -> list StationRow)
    (lat lon : Q) (w : World) :
  sort_contract sort_values ->
  let outcome := fst (nearest_and_eta geodesic_km sort_values lat lon w) in
  let found (S : list Station) :=
    exists row,
      nearest_fire_station geodesic_km sort_values lat lon S = Ok row /\
      In (station row) S /\
      outcome = match eta_min (distance_km row) with
                | Ok eta => Ok (row, eta)
                | Raise e => Raise e
                end in
  snd (nearest_and_eta geodesic_km sort_values lat lon w) = w /\
  match fire_stations_csv w with
  | Some Unparsable => outcome = Raise ParserError
  | Some (Parsed []) => outcome = Raise ValueError
  | Some (Parsed (s :: rest)) =>
      if valid_latitude lat && valid_stations (s :: rest)
      then found (s :: rest)
      else outcome = Raise ValueError
  | None =>
      if valid_latitude lat
      then found DEFAULT_FIRE_STATIONS
      else outcome = Raise ValueError
  end.
Proof.
  intros Hsort outcome found. subst outcome found.
  rewrite nearest_and_eta_run. unfold load_fire_station_df.
  assert (Hfound : forall S,
            S <> [] ->
            valid_latitude lat && valid_stations S = true ->
            snd (match nearest_fire_station geodesic_km sort_values lat lon S
                 with
                 | Raise e => (Raise e, w)
                 | Ok row =>
                     (match eta_min (distance_km row) with
                      | Ok eta => Ok (row, eta)
                      | Raise e => Raise e
                      end, w)
                 end) = w /\
            exists row,
              nearest_fire_station geodesic_km sort_values lat lon S = Ok row /\
              In (station row) S /\
              fst (match nearest_fire_station geodesic_km sort_values lat lon S
                   with
                   | Raise e => (Raise e, w)
                   | Ok row =>
                       (match eta_min (distance_km row) with
                        | Ok eta => Ok (row, eta)
                        | Raise e => Raise e
                        end, w)
                   end) =
              match eta_min (distance_km row) with
              | Ok eta => Ok (row, eta)
              | Raise e => Raise e
              end).
  { intros S HS Hv. apply andb_true_iff in Hv. destruct Hv as [Hlat Hrows].
    destruct (@nearest_is_least geodesic_km sort_values Hsort lat lon S
                Hlat Hrows HS) as (row & Hrow & Hin & _).
    rewrite Hrow. split; [reflexivity|]. exists row. auto. }
  destruct (fire_stations_csv w) as [[[|s rest]|]|]; cbn [fst].
  - split; reflexivity.
  - destruct (valid_latitude lat && valid_stations (s :: rest)) eqn:Hv.
    + apply Hfound; [discriminate | exact Hv].
    + rewrite (@nearest_refuses geodesic_km sort_values lat lon
                 (s :: rest) Hv).
      split; reflexivity.
  - split; reflexivity.
  - destruct (valid_latitude lat) eqn:Hlat.
    + apply Hfound; [discriminate|]. rewrite ?Hlat. reflexivity.
    + rewrite (@nearest_refuses geodesic_km sort_values lat lon
                 DEFAULT_FIRE_STATIONS); [split; reflexivity|].
      rewrite ?Hlat. reflexivity.
Qed.

(** X11 on an override file with a station at a latitude of 95 degrees. *)
Lemma resolution_outcomes_witness :
  snd (nearest_and_eta taxicab_km sort_ties_in_order
         (129079 # 10000) (774332 # 10000) (beyond_the_pole first_run)) =
    beyond_the_pole first_run /\
  fst (nearest_and_eta taxicab_km sort_ties_in_order
         (129079 # 10000) (774332 # 10000) (beyond_the_pole first_run)) =
    Raise ValueError.
Proof.
  apply (@resolution_outcomes taxicab_km sort_ties_in_order
           (129079 # 10000) (774332 # 10000) (beyond_the_pole first_run)).
  exact sort_ties_in_order_contract.
Defined.

(** X12.  Below 82 km the ETA of [main] is the travel time at 40 km/h in
    whole minutes, rounded down: for a distance [d] of two decimals, not
    negative and below 82 km, it is the integer [n] with
    [n <= 1.5 d < n + 1], and a longer distance below 82 km never gets a
    shorter ETA.  At 82.00 km the rounding of the division shows: the ETA is
    122 minutes and the travel time is 123. *)
Theorem eta_min_below_82 (n m : Z) :
  (0 <= n <= m)%Z ->
  (m < 8200)%Z ->
  exists eta1 eta2,
    eta_min (n # 100) = Ok eta1 /\ eta_min (m # 100) = Ok eta2 /\
    (0 <= eta1 <= eta2)%Z /\
    (inject_Z eta1 <= (n # 100) * (3 # 2) < inject_Z eta1 + 1)%Q /\
    eta_min (8200 # 100) = Ok 122%Z /\
    Qfloor ((8200 # 100) * (3 # 2)) = 123%Z.
Proof.
  intros Hn Hm.
  assert (Hbn : (0 <= n < 8200)%Z) by lia.
  assert (Hbm : (0 <= m < 8200)%Z) by lia.
  exists (Qfloor ((n # 100) * (3 # 2))), (Qfloor ((m # 100) * (3 # 2))).
  rewrite (eta_min_exact Hbn), (eta_min_exact Hbm).
  split; [reflexivity|]. split; [reflexivity|]. split; [split|split].
  - change 0%Z with (Qfloor (0 # 1)). apply Qfloor_resp_le.
    unfold Qle. cbn [Qnum Qden Qmult]. lia.
  - apply Qfloor_resp_le. unfold Qle. cbn [Qnum Qden Qmult]. lia.
  - apply floor_bounds.
  - split; vm_compute; reflexivity.
Qed.

(** X12 at 2.37 km and 5.80 km: 3 and 8 minutes. *)
Lemma eta_min_below_82_witness :
  exists eta1 eta2,
    eta_min (237 # 100) = Ok eta1 /\ eta_min (580 # 100) = Ok eta2 /\
    (0 <= eta1 <= eta2)%Z /\
    (inject_Z eta1 <= (237 # 100) * (3 # 2) < inject_Z eta1 + 1)%Q /\
    eta_min (8200 # 100) = Ok 122%Z /\
    Qfloor ((8200 # 100) * (3 # 2)) = 123%Z.
Proof.
  apply (@eta_min_below_82 237 580); lia.
Defined.

(** ** The selected location *)

Lemma find_location_found (locations : list CampusLocation) (n : string) :
  In n (map (@loc_name) locations) ->
  exists loc,
    find_location locations (Some n) = Some loc /\
    In loc locations /\ loc_name loc = n.
Proof.
  intros Hin. unfold find_location.
  destruct (find (fun loc => String.eqb (loc_name loc) n) locations)
    as [loc|] eqn:E.
  - apply find_some in E. destruct E as [Hloc Hname].
    apply String.eqb_eq in Hname. eauto.
  - apply in_map_iff in Hin. destruct Hin as (loc & Hname & Hloc).
    pose proof (find_none _ _ E _ Hloc) as H. cbv beta in H.
    rewrite Hname, String.eqb_refl in H. discriminate H.
Qed.

(** X13.  Past the guard of the fire workflow (a location is chosen or the
    GPS box is ticked), the coordinates of the incident are always defined:
    the lookup of a name offered by the location box finds the location of
    that name, so [selected_loc] is never subscripted while [None].  With
    the GPS box ticked the coordinates are the campus centre, whatever
    location is chosen; otherwise they are those of the chosen location. *)
Theorem user_coordinates_defined
    (gps_option : bool) (selected_loc_name : option string) (w : World) :
  selectable location_names selected_loc_name ->
  (selected_loc_name = None -> gps_option = true) ->
  exists p,
    fst (user_coordinates gps_option (selected_location selected_loc_name) w)
      = Ok (Some p) /\
    (gps_option = true -> p = (IRIDM_LAT, IRIDM_LON)) /\
    (gps_option = false ->
     exists loc,
       In loc CAMPUS_LOCATIONS /\
       selected_loc_name = Some (loc_name loc) /\
       p = (loc_latitude loc, loc_longitude loc)).
Proof.
  intros Hsel Hguard. destruct gps_option.
  - exists (IRIDM_LAT, IRIDM_LON). repeat split. discriminate.
  - destruct selected_loc_name as [n|]; [|now specialize (Hguard eq_refl)].
    destruct (find_location_found CAMPUS_LOCATIONS n Hsel)
      as (loc & Hfind & Hin & Hname).
    exists (loc_latitude loc, loc_longitude loc).
    unfold selected_location. rewrite Hfind.
    repeat split; [discriminate|]. intros _. exists loc. subst n. auto.
Qed.

(** X13 for the Hostel, the GPS box not ticked. *)
Lemma user_coordinates_defined_witness :
  exists p,
    fst (user_coordinates false (selected_location (Some "Hostel"%string))
           first_run) = Ok (Some p) /\
    (false = true -> p = (IRIDM_LAT, IRIDM_LON)) /\
    (false = false ->
     exists loc,
       In loc CAMPUS_LOCATIONS /\
       Some "Hostel"%string = Some (loc_name loc) /\
       p = (loc_latitude loc, loc_longitude loc)).
Proof.
  apply (@user_coordinates_defined false (Some "Hostel"%string) first_run).
  - simpl. auto.
  - discriminate.
Defined.

(** ** The map *)

Lemma draw_map_run (selected_loc : option CampusLocation)
    (highlight_evac : bool) (w : World) :
  draw_map selected_loc highlight_evac w =
  match fst (load_fire_station_df w) with
  | Raise e => (Raise e, w)
  | Ok stations_df =>
      (Ok {| layers := stations_layer stations_df :: locations_layer ::
                       overlays selected_loc highlight_evac;
             initial_view_state :=
               {| view_latitude := IRIDM_LAT; view_longitude := IRIDM_LON;
                  zoom := 16; pitch := 45 |} |}, w)
  end.
Proof.
  unfold draw_map, bind, load_fire_station_df.
  destruct (fire_stations_csv w) as [[rows|]|]; reflexivity.
Qed.

(** X14.  [draw_map] fails only when the override file of the stations
    cannot be parsed, and changes nothing.  Otherwise it draws, centred on
    the campus, one dot per station of the source (none for a file that
    holds no station, on which the resolver fails) and one per campus
    location; and with no location selected these two layers are all it
    draws, also when the evacuation path is asked for, as [main] does in GPS
    mode. *)
Theorem draw_map_base_layers
    (selected_loc : option CampusLocation) (highlight_evac : bool)
    (w : World) (stations_df : list Station) :
  fst (load_fire_station_df w) = Ok stations_df ->
  exists deck rest,
    draw_map selected_loc highlight_evac w = (Ok deck, w) /\
    layers deck = stations_layer stations_df :: locations_layer :: rest /\
    dots (stations_layer stations_df) =
      map (fun s => (longitude s, latitude s)) stations_df /\
    List.length (dots locations_layer) = List.length CAMPUS_LOCATIONS /\
    (List.length rest <= 2)%nat /\
    (selected_loc = None -> rest = []) /\
    view_latitude (initial_view_state deck) = IRIDM_LAT /\
    view_longitude (initial_view_state deck) = IRIDM_LON.
Proof.
  intros Hload. rewrite draw_map_run, Hload.
  do 2 eexists. split; [reflexivity|]. split; [reflexivity|].
  split; [reflexivity|]. split; [reflexivity|]. split; [|split].
  - destruct selected_loc as [loc|]; simpl; [|lia].
    rewrite length_app.
    destruct (extinguishers loc); destruct highlight_evac; simpl; lia.
  - now intros ->.
  - split; reflexivity.
Qed.

(** X14 in GPS mode on an override file that has only its header line. *)
Lemma draw_map_base_layers_witness :
  exists deck rest,
    draw_map None true (header_only first_run) =
      (Ok deck, header_only first_run) /\
    layers deck = stations_layer [] :: locations_layer :: rest /\
    dots (stations_layer []) = map (fun s => (longitude s, latitude s)) [] /\
    List.length (dots locations_layer) = List.length CAMPUS_LOCATIONS /\
    (List.length rest <= 2)%nat /\
    (@None CampusLocation = None -> rest = []) /\
    view_latitude (initial_view_state deck) = IRIDM_LAT /\
    view_longitude (initial_view_state deck) = IRIDM_LON.
Proof.
  apply (@draw_map_base_layers None true (header_only first_run) []).
  reflexivity.
Defined.

Lemma lon_lat_back (waypoints : list Coordinate) :
  map (fun p => (snd p, fst p)) (lon_lat waypoints) = waypoints.
Proof.
  unfold lon_lat. rewrite map_map. rewrite <- (map_id waypoints) at 2.
  apply map_ext. now intros [a b].
Qed.

(** X15.  For a selected location, the layers [draw_map] adds draw every
    extinguisher of the location and nothing else as dots, and, when the
    evacuation path is asked for, one path through every waypoint of the
    location; both in the order of the location's data, each coordinate
    pair turned from (latitude, longitude) into (longitude, latitude).  A
    location without extinguishers gets no extinguisher layer, and no path
    is drawn unless asked for. *)
Theorem draw_map_overlays (loc : CampusLocation) (highlight_evac : bool) :
  flat_map dots (overlays (Some loc) highlight_evac) =
    lon_lat (extinguishers loc) /\
  map (fun p => (snd p, fst p))
    (flat_map dots (overlays (Some loc) highlight_evac)) = extinguishers loc /\
  flat_map paths (overlays (Some loc) highlight_evac) =
    (if highlight_evac then [lon_lat (evac_path loc)] else []) /\
  (extinguishers loc = [] ->
   overlays (Some loc) highlight_evac =
     if highlight_evac then [evac_layer (evac_path loc)] else []) /\
  List.length (overlays (Some loc) highlight_evac) =
    ((if highlight_evac then 1 else 0) +
     match extinguishers loc with [] => 0 | _ :: _ => 1 end)%nat.
Proof.
  assert (Hdots : flat_map dots (overlays (Some loc) highlight_evac) =
                  lon_lat (extinguishers loc)).
  { unfold overlays. destruct (extinguishers loc) as [|e rest];
      destruct highlight_evac; cbn; rewrite ?app_nil_r; reflexivity. }
  split; [exact Hdots|]. split; [rewrite Hdots; apply lon_lat_back|].
  unfold overlays.
  destruct (extinguishers loc) as [|e rest]; destruct highlight_evac;
    repeat split; try reflexivity; discriminate.
Qed.

(** ** Timestamps as text *)

(** X16.  The timestamps [log_event] writes order as text the way their
    clock readings order in time: comparing two of them character by
    character, as sorting the log table by its timestamp column does, gives
    the comparison of the readings at second precision.  Every timestamp has
    19 characters and is read back from the file as the text it was. *)
Theorem timestamp_text_order (t1 t2 : datetime) :
  valid_datetime t1 ->
  valid_datetime t2 ->
  String.compare (isoformat_seconds t1) (isoformat_seconds t2) =
    lex_compare (to_second t1) (to_second t2) /\
  (String.ltb (isoformat_seconds t1) (isoformat_seconds t2) = true <->
   lex_compare (to_second t1) (to_second t2) = Lt) /\
  String.length (isoformat_seconds t1) = 19%nat /\
  read_csv_cell (to_csv_cell (VStr (isoformat_seconds t1))) =
    VStr (isoformat_seconds t1).
Proof.
  intros V1 V2. pose proof (isoformat_compare V1 V2) as H.
  split; [exact H|]. split; [|split].
  - unfold String.ltb. rewrite H.
    destruct (lex_compare (to_second t1) (to_second t2));
      split; congruence.
  - reflexivity.
  - cbn [to_csv_cell]. apply isoformat_is_read_back.
Qed.

(** X16 for half past eight and half past nine of the same day. *)
Lemma timestamp_text_order_witness :
  String.compare (isoformat_seconds half_past_eight)
    (isoformat_seconds half_past_nine) =
    lex_compare (to_second half_past_eight) (to_second half_past_nine) /\
  (String.ltb (isoformat_seconds half_past_eight)
     (isoformat_seconds half_past_nine) = true <->
   lex_compare (to_second half_past_eight) (to_second half_past_nine) = Lt) /\
  String.length (isoformat_seconds half_past_eight) = 19%nat /\
  read_csv_cell (to_csv_cell (VStr (isoformat_seconds half_past_eight))) =
    VStr (isoformat_seconds half_past_eight).
Proof.
  apply (@timestamp_text_order half_past_eight half_past_nine).
  - unfold valid_datetime, half_past_eight; simpl; lia.
  - unfold valid_datetime, half_past_nine; simpl; lia.
Defined.
